(** * JARVIS live client: realtime audio pipeline and session orchestration

    A shallow embedding of [services/liveClient.ts] (class [LiveClient]),
    of the caller in [App.tsx] and of the enumerations of [types.ts],
    followed by the properties of the audio pipeline.

    Conventions of the embedding.
    - JavaScript numbers that measure time and sample amplitude are read as
      exact rationals ([Q]); the loudness, which needs a square root, is a
      real number ([R]).
    - An [async] method is a state transformer whose awaited outcomes are
      arguments; a rejected [await] is a [Throw] completion.
    - An object the client only holds a reference to (audio contexts, the
      microphone stream, buffer source nodes) lives in the [World]: buffer
      source nodes in a store indexed by identity, the others in the field
      that is their only reference.
    - [../utils/audioUtils] is imported by the client but is not part of the
      sources at hand: the client is parametric in its three functions, and
      module [AudioUtils] gives the codec as the specification words it.
    - The browser objects follow the Web Audio and Media Capture interfaces:
      [stop] on a source that was never started and [close] on a closed
      context raise [InvalidStateError]; [disconnect] on a node and [stop]
      on a track never raise. *)

From stdpp Require Import gmap strings list.
From Stdlib Require Import QArith Qminmax Qabs Qround Reals Qreals Lqa Lra.
From Stdlib.Strings Require Import Byte Ascii.

Open Scope Q_scope.

(** ** Errors *)

(** The exceptions that travel through the client.  The first five are the
    taxonomy of the error-handling design; [TypeError] and
    [InvalidStateError] are raised by the JavaScript runtime and by the Web
    Audio objects. *)
Inductive JsError : Type :=
  | PermissionDenied
  | DeviceUnavailable
  | ConnectionError
  | DecodeError
  | InvalidMode
  | TypeError
  | InvalidStateError.

Definition error_message (e : JsError) : string :=
  match e with
  | PermissionDenied => "PermissionDenied"
  | DeviceUnavailable => "DeviceUnavailable"
  | ConnectionError => "ConnectionError"
  | DecodeError => "DecodeError"
  | InvalidMode => "InvalidMode"
  | TypeError => "TypeError"
  | InvalidStateError => "InvalidStateError"
  end.

(** Result of a call that may throw. *)
Inductive Completion (A : Type) : Type :=
  | Normal (a : A)
  | Throw (e : JsError).
Arguments Normal {A} a.
Arguments Throw {A} e.

(** ** Audio buffers *)

Record AudioBuffer : Type := mkAudioBuffer {
  channelData : list Q;
  sampleRate : positive;
  numberOfChannels : positive
}.

(** [AudioBuffer.duration]: frames divided by the sample rate. *)
Definition duration (b : AudioBuffer) : Q :=
  (Z.of_nat (length (channelData b)) / Z.pos (numberOfChannels b))%Z
    # sampleRate b.

(** ** The PCM codec and the base64 transport *)

Module AudioUtils.

(** The signed 16-bit range. *)
Definition int16_range : Z := 32768.
Definition INT16_MIN : Z := -32768.
Definition INT16_MAX : Z := 32767.

Definition clamp16 (z : Z) : Z := Z.max INT16_MIN (Z.min INT16_MAX z).

Definition byte_of_Z (z : Z) : byte :=
  match Byte.of_N (Z.to_N (z mod 256)) with
  | Some b => b
  | None => x00
  end.

Definition Z_of_byte (b : byte) : Z := Z.of_N (Byte.to_N b).

(** Two's complement, little-endian: low byte first. *)
Definition int16_to_le (v : Z) : list byte :=
  [byte_of_Z v; byte_of_Z (v / 256)].

Definition int16_of_le (lo hi : byte) : Z :=
  let u := (Z_of_byte lo + 256 * Z_of_byte hi)%Z in
  if (u <? 32768)%Z then u else (u - 65536)%Z.

(** Conversion of a real amplitude to an integer sample.  The
    specification fixes the scale and the clamp, not the rounding: the
    conversion is a parameter, [to_int]. *)
Section Encode.
Variable to_int : Q -> Z.

(** Modelled from the spec: [encode] of [utils/audioUtils] (the body of
    [createPcmBlob]), "maps each sample to a 16-bit signed integer by
    linear scaling (clamped), little-endian byte order". *)
Definition encode_sample (x : Q) : Z :=
  clamp16 (to_int (x * inject_Z int16_range)).

Definition encode (samples : list Q) : list byte :=
  flat_map (fun x => int16_to_le (encode_sample x)) samples.
End Encode.

(** Truncation toward zero, the conversion of a typed-array store. *)
Definition Qtruncate (q : Q) : Z :=
  if Qle_bool 0 q then Qfloor q else Qceiling q.

Definition decode_sample (lo hi : byte) : Q :=
  inject_Z (int16_of_le lo hi) / inject_Z int16_range.

(** Modelled from the spec: [decode] of [utils/audioUtils] (the body of
    [decodeAudioData]), "inverse mapping, dividing by the signed 16-bit
    range"; a buffer that is not a whole number of 16-bit samples is
    truncated input and "must fail with a DecodeError". *)
Fixpoint decode_samples (bytes : list byte) : Completion (list Q) :=
  match bytes with
  | [] => Normal []
  | [_] => Throw DecodeError
  | lo :: hi :: rest =>
      match decode_samples rest with
      | Normal l => Normal (decode_sample lo hi :: l)
      | Throw e => Throw e
      end
  end.

Definition decode (bytes : list byte) (rate channels : positive)
  : Completion AudioBuffer :=
  match decode_samples bytes with
  | Normal l => Normal (mkAudioBuffer l rate channels)
  | Throw e => Throw e
  end.

(** Modelled from the spec: [base64ToUint8Array] of [utils/audioUtils],
    the "transport decode between a base64 text representation and binary
    buffers" (RFC 4648 alphabet, optional padding); text outside the
    alphabet or of impossible length is malformed input. *)
Definition base64_value (c : ascii) : option Z :=
  let n := Z.of_N (N_of_ascii c) in
  if (65 <=? n)%Z && (n <=? 90)%Z then Some (n - 65)%Z
  else if (97 <=? n)%Z && (n <=? 122)%Z then Some (n - 71)%Z
  else if (48 <=? n)%Z && (n <=? 57)%Z then Some (n + 4)%Z
  else if (n =? 43)%Z then Some 62%Z
  else if (n =? 47)%Z then Some 63%Z
  else None.

Fixpoint base64_sextets (s : list ascii) : option (list Z) :=
  match s with
  | [] => Some []
  | c :: rest =>
      if Ascii.eqb c "="%char
      then if forallb (Ascii.eqb "="%char) rest && (length rest <=? 1)%nat
           then Some [] else None
      else match base64_value c, base64_sextets rest with
           | Some v, Some l => Some (v :: l)
           | _, _ => None
           end
  end.

Fixpoint base64_groups (l : list Z) : option (list byte) :=
  match l with
  | [] => Some []
  | [_] => None
  | [a; b] => Some [byte_of_Z (a * 4 + b / 16)]
  | [a; b; c] =>
      Some [byte_of_Z (a * 4 + b / 16); byte_of_Z (b * 16 + c / 4)]
  | a :: b :: c :: d :: rest =>
      match base64_groups rest with
      | Some bs =>
          Some (byte_of_Z (a * 4 + b / 16)
                :: byte_of_Z (b * 16 + c / 4)
                :: byte_of_Z (c * 64 + d) :: bs)
      | None => None
      end
  end.

Definition base64ToUint8Array (s : string) : Completion (list byte) :=
  match base64_sextets (String.list_ascii_of_string s) with
  | Some l =>
      match base64_groups l with
      | Some bs => Normal bs
      | None => Throw DecodeError
      end
  | None => Throw DecodeError
  end.

Definition decodeAudioData (data : list byte) (rate channels : positive)
  : Completion AudioBuffer := decode data rate channels.

Definition createPcmBlob (frame : list Q) : list byte :=
  encode Qtruncate frame.

End AudioUtils.

(** ** types.ts *)

Inductive ConnectionState : Type :=
  | IDLE
  | REQUESTING_PERMISSION
  | CONNECTING
  | CONNECTED
  | ERROR.

Inductive AssistantMode : Type :=
  | GENERAL
  | HOMEWORK
  | GK_QUIZ
  | SCIENCE.

(** The enumeration is a TypeScript string enum: at run time a mode is its
    name, and a cast [as AssistantMode] checks nothing. *)
Definition AssistantMode_value (m : AssistantMode) : string :=
  match m with
  | GENERAL => "GENERAL"
  | HOMEWORK => "HOMEWORK"
  | GK_QUIZ => "GK_QUIZ"
  | SCIENCE => "SCIENCE"
  end.

Definition AssistantMode_of_string (s : string) : option AssistantMode :=
  if String.eqb s "GENERAL" then Some GENERAL
  else if String.eqb s "HOMEWORK" then Some HOMEWORK
  else if String.eqb s "GK_QUIZ" then Some GK_QUIZ
  else if String.eqb s "SCIENCE" then Some SCIENCE
  else None.

(** A value of JavaScript type [string | undefined]. *)
Abbreviation JsString := (option string).

(** Conversion inside a template literal. *)
Definition template (v : JsString) : string :=
  match v with
  | Some s => s
  | None => "undefined"
  end.

(** ** Messages of the remote endpoint *)

Record Blob : Type := mkBlob {
  data : JsString;
  mimeType : JsString
}.

Record Part : Type := mkPart {
  inlineData : option Blob
}.

Record Content : Type := mkContent {
  parts : option (list Part)
}.

Record LiveServerContent : Type := mkServerContent {
  modelTurn : option Content;
  interrupted : option bool
}.

Record FunctionCall : Type := mkFunctionCall {
  fc_id : JsString;
  fc_name : JsString;
  fc_args : option (gmap string string)
}.

Record LiveServerToolCall : Type := mkToolCall {
  functionCalls : option (list FunctionCall)
}.

Record LiveServerMessage : Type := mkMessage {
  toolCall : option LiveServerToolCall;
  serverContent : option LiveServerContent
}.

Record FunctionResponse : Type := mkFunctionResponse {
  fr_id : JsString;
  fr_name : JsString;
  fr_result : string
}.

(** What the client hands to the session for transmission. *)
Inductive Outbound : Type :=
  | sendRealtimeInput (media : list byte)
  | sendToolResponse (functionResponses : list FunctionResponse).

(** Invocations of [LiveClientCallbacks]. *)
Inductive Callback : Type :=
  | onOpen
  | onClose
  | onError (error : JsError)
  | onAudioData (volume : R)
  | onModeChange (mode : JsString).

(** Requests made to the external collaborators during [connect]. *)
Inductive Request : Type :=
  | getUserMedia
  | liveConnect.

(** ** Device objects *)

Record AudioContext : Type := mkAudioContext {
  ctx_sampleRate : Z;
  ctx_closed : bool
}.

Record GainNode : Type := mkGainNode {
  gain_to_destination : bool
}.

Inductive TrackState : Type := live | ended.

Record MediaStream : Type := mkMediaStream {
  getTracks : list TrackState
}.

Record MediaStreamAudioSourceNode : Type := mkMediaStreamSource {
  mss_connected : bool
}.

Record ScriptProcessorNode : Type := mkScriptProcessor {
  sp_bufferSize : Z;
  sp_connected : bool
}.

(** An [AudioBufferSourceNode]: [startTime] is [None] until [start] is
    called. *)
Record SourceNode : Type := mkSourceNode {
  buffer : AudioBuffer;
  startTime : option Q;
  stopped : bool
}.

(** The state of the promise returned by [ai.live.connect], observed once
    it has settled (a continuation attached earlier runs at that point). *)
Inductive SessionPromise : Type :=
  | Fulfilled
  | Rejected (e : JsError).

(** ** The client and its world *)

(** The first ten fields are the private fields of [LiveClient]; [nodes] is
    the store of buffer source nodes (identity = index); the last three are
    the traces of what the client did to its collaborators. *)
Record World : Type := mkWorld {
  inputAudioContext : option AudioContext;
  outputAudioContext : option AudioContext;
  inputNode : option GainNode;
  outputNode : option GainNode;
  sources : gset nat;
  nextStartTime : Q;
  stream : option MediaStream;
  session : option SessionPromise;
  scriptProcessor : option ScriptProcessorNode;
  mediaStreamSource : option MediaStreamAudioSourceNode;
  nodes : list SourceNode;
  calls : list Callback;
  outbox : list Outbound;
  requests : list Request
}.

(** [new LiveClient(apiKey)]. *)
Definition new_LiveClient : World :=
  mkWorld None None None None ∅ 0 None None None None [] [] [] [].

(** Field assignment. *)
Definition set_inputAudioContext (v : option AudioContext) (w : World) : World :=
  mkWorld v (outputAudioContext w) (inputNode w) (outputNode w) (sources
    w) (nextStartTime w) (stream w) (session w) (scriptProcessor w)
    (mediaStreamSource w) (nodes w) (calls w) (outbox w) (requests w).

Definition set_outputAudioContext (v : option AudioContext) (w : World) : World :=
  mkWorld (inputAudioContext w) v (inputNode w) (outputNode w) (sources w)
    (nextStartTime w) (stream w) (session w) (scriptProcessor w)
    (mediaStreamSource w) (nodes w) (calls w) (outbox w) (requests w).

Definition set_inputNode (v : option GainNode) (w : World) : World :=
  mkWorld (inputAudioContext w) (outputAudioContext w) v (outputNode w)
    (sources w) (nextStartTime w) (stream w) (session w) (scriptProcessor w)
    (mediaStreamSource w) (nodes w) (calls w) (outbox w) (requests w).

Definition set_outputNode (v : option GainNode) (w : World) : World :=
  mkWorld (inputAudioContext w) (outputAudioContext w) (inputNode w) v
    (sources w) (nextStartTime w) (stream w) (session w) (scriptProcessor w)
    (mediaStreamSource w) (nodes w) (calls w) (outbox w) (requests w).

Definition set_sources (v : gset nat) (w : World) : World :=
  mkWorld (inputAudioContext w) (outputAudioContext w) (inputNode w)
    (outputNode w) v (nextStartTime w) (stream w) (session w)
    (scriptProcessor w) (mediaStreamSource w) (nodes w) (calls w) (outbox w)
    (requests w).

Definition set_nextStartTime (v : Q) (w : World) : World :=
  mkWorld (inputAudioContext w) (outputAudioContext w) (inputNode w)
    (outputNode w) (sources w) v (stream w) (session w) (scriptProcessor w)
    (mediaStreamSource w) (nodes w) (calls w) (outbox w) (requests w).

Definition set_stream (v : option MediaStream) (w : World) : World :=
  mkWorld (inputAudioContext w) (outputAudioContext w) (inputNode w)
    (outputNode w) (sources w) (nextStartTime w) v (session w)
    (scriptProcessor w) (mediaStreamSource w) (nodes w) (calls w) (outbox w)
    (requests w).

Definition set_session (v : option SessionPromise) (w : World) : World :=
  mkWorld (inputAudioContext w) (outputAudioContext w) (inputNode w)
    (outputNode w) (sources w) (nextStartTime w) (stream w) v
    (scriptProcessor w) (mediaStreamSource w) (nodes w) (calls w) (outbox w)
    (requests w).

Definition set_scriptProcessor (v : option ScriptProcessorNode) (w : World) : World :=
  mkWorld (inputAudioContext w) (outputAudioContext w) (inputNode w)
    (outputNode w) (sources w) (nextStartTime w) (stream w) (session w) v
    (mediaStreamSource w) (nodes w) (calls w) (outbox w) (requests w).

Definition set_mediaStreamSource (v : option MediaStreamAudioSourceNode) (w : World) : World :=
  mkWorld (inputAudioContext w) (outputAudioContext w) (inputNode w)
    (outputNode w) (sources w) (nextStartTime w) (stream w) (session w)
    (scriptProcessor w) v (nodes w) (calls w) (outbox w) (requests w).

Definition set_nodes (v : list SourceNode) (w : World) : World :=
  mkWorld (inputAudioContext w) (outputAudioContext w) (inputNode w)
    (outputNode w) (sources w) (nextStartTime w) (stream w) (session w)
    (scriptProcessor w) (mediaStreamSource w) v (calls w) (outbox w)
    (requests w).

Definition set_calls (v : list Callback) (w : World) : World :=
  mkWorld (inputAudioContext w) (outputAudioContext w) (inputNode w)
    (outputNode w) (sources w) (nextStartTime w) (stream w) (session w)
    (scriptProcessor w) (mediaStreamSource w) (nodes w) v (outbox w)
    (requests w).

Definition set_outbox (v : list Outbound) (w : World) : World :=
  mkWorld (inputAudioContext w) (outputAudioContext w) (inputNode w)
    (outputNode w) (sources w) (nextStartTime w) (stream w) (session w)
    (scriptProcessor w) (mediaStreamSource w) (nodes w) (calls w) v
    (requests w).

Definition set_requests (v : list Request) (w : World) : World :=
  mkWorld (inputAudioContext w) (outputAudioContext w) (inputNode w)
    (outputNode w) (sources w) (nextStartTime w) (stream w) (session w)
    (scriptProcessor w) (mediaStreamSource w) (nodes w) (calls w) (outbox w)
    v.

(** ** A monad for methods: state that survives an exception *)

Definition M (A : Type) : Type := World -> Completion A * World.

#[global] Instance M_ret : MRet M := fun A a w => (Normal a, w).

#[global] Instance M_bind : MBind M := fun A B f c w =>
  match c w with
  | (Normal a, w') => f a w'
  | (Throw e, w') => (Throw e, w')
  end.

Definition throw {A : Type} (e : JsError) : M A := fun w => (Throw e, w).

(** [try { body } catch (err) { handler(err) }]. *)
Definition try_catch {A : Type} (body : M A) (handler : JsError -> M A)
  : M A := fun w =>
  match body w with
  | (Normal a, w') => (Normal a, w')
  | (Throw e, w') => handler e w'
  end.

(** The completion of a call that does not touch the client. *)
Definition lift {A : Type} (c : Completion A) : M A := fun w => (c, w).

Definition modify (f : World -> World) : M unit := fun w => (Normal tt, f w).

Definition gets {A : Type} (f : World -> A) : M A := fun w => (Normal (f w), w).

(** The world a method leaves behind, whether it returned or threw. *)
Definition exec {A : Type} (c : M A) (w : World) : World := snd (c w).

(** Invoke one of the caller's callbacks (fire-and-forget). *)
Definition callback (c : Callback) : M unit :=
  modify (fun w => set_calls (calls w ++ [c]) w).

Definition request (r : Request) : M unit :=
  modify (fun w => set_requests (requests w ++ [r]) w).

(** [this.session.then(session => session.send...(o))]: a null [session]
    is a [TypeError]; the continuation of a rejected promise never runs. *)
Definition session_then (o : Outbound) : M unit := fun w =>
  match session w with
  | None => (Throw TypeError, w)
  | Some Fulfilled => (Normal tt, set_outbox (outbox w ++ [o]) w)
  | Some (Rejected _) => (Normal tt, w)
  end.

(** ** Web Audio operations *)

(** [source.stop()]: an [InvalidStateError] when [start] was never called;
    stopping again, or after the end of the buffer, is accepted. *)
Definition source_stop (id : nat) : M unit := fun w =>
  match nodes w !! id with
  | Some n =>
      match startTime n with
      | Some _ =>
          (Normal tt,
           set_nodes (<[id := mkSourceNode (buffer n) (startTime n) true]>
                        (nodes w)) w)
      | None => (Throw InvalidStateError, w)
      end
  | None => (Normal tt, w)
  end.

(** [context.close()]: rejected with [InvalidStateError] when the context
    is already closed. *)
Definition context_close (ctx : AudioContext)
  : Completion AudioContext :=
  if ctx_closed ctx then Throw InvalidStateError
  else Normal (mkAudioContext (ctx_sampleRate ctx) true).

(** Whether a node is, or is still going to be, audible. *)
Definition playing (n : SourceNode) : bool :=
  match startTime n with
  | Some _ => negb (stopped n)
  | None => false
  end.

(** ** class LiveClient *)

Definition setAssistantMode : string := "setAssistantMode".

(** The imports from [../utils/audioUtils], as an interface.
    [decodeAudioData] is [async]: its completion is what the [await]
    yields.  The output context it receives is left out. *)
Class AudioUtilsModule : Type := {
  base64ToUint8Array : string -> Completion (list byte);
  decodeAudioData :
    list byte -> positive -> positive -> Completion AudioBuffer;
  createPcmBlob : list Q -> list byte
}.

(** The codec of the specification as an implementation of the interface. *)
Definition reference_utils : AudioUtilsModule :=
  {| base64ToUint8Array := AudioUtils.base64ToUint8Array;
     decodeAudioData := AudioUtils.decodeAudioData;
     createPcmBlob := AudioUtils.createPcmBlob |}.

Section LiveClient.

Context {utils : AudioUtilsModule}.

(** *** stopAllAudio *)

(** [sources.forEach]: the nodes are distinct objects, so the order of the
    visit does not matter. *)

Fixpoint stop_each (ids : list nat) : M unit :=
  match ids with
  | [] => mret tt
  | source :: rest =>
      try_catch (source_stop source) (fun _ => mret tt) ;;
      stop_each rest
  end.

Definition stopAllAudio : M unit :=
  ids ← gets (fun w => elements (sources w));
  stop_each ids ;;
  modify (set_sources ∅) ;;
  modify (set_nextStartTime 0).

(** *** handleMessage *)

(** The body of the loop over [functionCalls]. *)
Definition handle_functionCall (fc : FunctionCall)
    (responses : list FunctionResponse) : M (list FunctionResponse) :=
  if decide (fc_name fc = Some setAssistantMode) then
    args ← lift (match fc_args fc with
                 | Some a => Normal a
                 | None => Throw TypeError
                 end);
    let mode := args !! "mode" in
    callback (onModeChange mode) ;;
    mret (responses ++
          [mkFunctionResponse (fc_id fc) (fc_name fc)
             ("Mode set to " +:+ template mode)])
  else mret responses.

Fixpoint for_functionCalls (fcs : list FunctionCall)
    (responses : list FunctionResponse) : M (list FunctionResponse) :=
  match fcs with
  | [] => mret responses
  | fc :: rest =>
      responses' ← handle_functionCall fc responses;
      for_functionCalls rest responses'
  end.

Definition handle_toolCall (message : LiveServerMessage) : M unit :=
  match toolCall message with
  | Some tc =>
      match functionCalls tc with
      | Some ((_ :: _) as fcs) =>
          responses ← for_functionCalls fcs [];
          match responses with
          | [] => mret tt
          | _ :: _ => session_then (sendToolResponse responses)
          end
      | _ => mret tt
      end
  | None => mret tt
  end.

(** [message.serverContent?.modelTurn?.parts?.[0]?.inlineData?.data]. *)
Definition base64Audio (message : LiveServerMessage) : JsString :=
  sc ← serverContent message;
  mt ← modelTurn sc;
  ps ← parts mt;
  p ← head ps;
  b ← inlineData p;
  data b.

(** The body of [if (base64Audio)], at device time [currentTime]
    ([this.outputAudioContext.currentTime]).  The source node enters the
    store as [start] leaves it: created, given its buffer, connected to the
    output node, listened to and started. *)
Definition play_chunk (currentTime : Q) (audio : string) : M unit :=
  modify (fun w =>
    set_nextStartTime (Qmax (nextStartTime w) currentTime) w) ;;
  bytes ← lift (base64ToUint8Array audio);
  audioBuffer ← lift (decodeAudioData bytes 24000 1);
  source ← gets (fun w => length (nodes w));
  modify (fun w =>
    set_nodes (nodes w ++
               [mkSourceNode audioBuffer (Some (nextStartTime w)) false])
              w) ;;
  modify (fun w =>
    set_nextStartTime (nextStartTime w + duration audioBuffer) w) ;;
  modify (fun w => set_sources ({[source]} ∪ sources w) w).

Definition handle_audio (currentTime : Q) (message : LiveServerMessage)
  : M unit :=
  match base64Audio message with
  | Some audio =>
      if decide (audio = EmptyString) then mret tt
      else play_chunk currentTime audio
  | None => mret tt
  end.

Definition is_interrupted (message : LiveServerMessage) : bool :=
  match serverContent message with
  | Some sc => default false (interrupted sc)
  | None => false
  end.

Definition handleMessage (currentTime : Q) (message : LiveServerMessage)
  : M unit :=
  handle_toolCall message ;;
  ready ← gets (fun w =>
    bool_decide (is_Some (outputAudioContext w))
    && bool_decide (is_Some (outputNode w)));
  if ready : bool then
    handle_audio currentTime message ;;
    if is_interrupted message then stopAllAudio else mret tt
  else mret tt.

(** The listener of a source's [ended] event. *)
Definition on_ended (source : nat) (w : World) : World :=
  set_sources (sources w ∖ {[source]}) w.

(** *** startAudioInput and its frame handler *)

Definition startAudioInput : M unit :=
  ready ← gets (fun w =>
    bool_decide (is_Some (inputAudioContext w))
    && bool_decide (is_Some (stream w)));
  if ready : bool then
    modify (set_mediaStreamSource (Some (mkMediaStreamSource true))) ;;
    modify (set_scriptProcessor (Some (mkScriptProcessor 4096 true)))
  else mret tt.

(** The loop [for (i...) sum += inputData[i] * inputData[i]]. *)
Definition sum_squares (inputData : list Q) : Q :=
  fold_left (fun sum x => sum + x * x) inputData 0.

(** [Math.sqrt(sum / inputData.length)]; the script processor delivers
    frames of its buffer size, never an empty one. *)
Definition rms (inputData : list Q) : R :=
  sqrt (Q2R (sum_squares inputData / inject_Z (Z.of_nat (length inputData)))).

(** The handler of [onaudioprocess]; its [sessionPromise] is the promise
    that [this.session] holds. *)
Definition onaudioprocess (inputData : list Q) : M unit :=
  callback (onAudioData (rms inputData * 100)%R) ;;
  session_then (sendRealtimeInput (createPcmBlob inputData)).

(** *** connect *)

Definition settle (handshake : Completion unit) : SessionPromise :=
  match handshake with
  | Normal _ => Fulfilled
  | Throw e => Rejected e
  end.

(** [permission] is the outcome of [getUserMedia], [handshake] that of
    the promise of [ai.live.connect]. *)
Definition connect (permission : Completion MediaStream)
    (handshake : Completion unit) : M unit :=
  modify (set_inputAudioContext (Some (mkAudioContext 16000 false))) ;;
  modify (set_outputAudioContext (Some (mkAudioContext 24000 false))) ;;
  modify (set_inputNode (Some (mkGainNode false))) ;;
  modify (set_outputNode (Some (mkGainNode true))) ;;
  try_catch
    (request getUserMedia ;;
     media ← lift permission;
     modify (set_stream (Some media)) ;;
     request liveConnect ;;
     modify (set_session (Some (settle handshake))) ;;
     lift handshake)
    (fun err => callback (onError err)).

(** The callbacks registered with the session. *)
Definition session_onopen : M unit :=
  callback onOpen ;; startAudioInput.

(** [handleMessage] is not awaited: its rejection is lost, and the next
    message is handled all the same.  Messages are handled one at a time. *)
Definition session_onmessage (currentTime : Q)
    (message : LiveServerMessage) (w : World) : World :=
  exec (handleMessage currentTime message) w.

Definition session_onclose : M unit := callback onClose.

Definition session_onerror (e : JsError) : M unit := callback (onError e).

(** *** disconnect *)

Definition stop_tracks (s : MediaStream) : MediaStream :=
  mkMediaStream (map (fun _ => ended) (getTracks s)).

Definition close_inputAudioContext : M unit := fun w =>
  match inputAudioContext w with
  | Some ctx =>
      match context_close ctx with
      | Normal ctx' => (Normal tt, set_inputAudioContext (Some ctx') w)
      | Throw e => (Throw e, w)
      end
  | None => (Normal tt, w)
  end.

Definition close_outputAudioContext : M unit := fun w =>
  match outputAudioContext w with
  | Some ctx =>
      match context_close ctx with
      | Normal ctx' => (Normal tt, set_outputAudioContext (Some ctx') w)
      | Throw e => (Throw e, w)
      end
  | None => (Normal tt, w)
  end.

Definition disconnect : M unit :=
  stopAllAudio ;;
  modify (fun w =>
    set_mediaStreamSource
      ((fun _ => mkMediaStreamSource false) <$> mediaStreamSource w) w) ;;
  modify (fun w =>
    set_scriptProcessor
      ((fun sp => mkScriptProcessor (sp_bufferSize sp) false)
         <$> scriptProcessor w) w) ;;
  modify (fun w => set_stream (stop_tracks <$> stream w) w) ;;
  close_inputAudioContext ;;
  close_outputAudioContext.

(** The messages of a session, handled one at a time in arrival order,
    each with the device time at which it is handled. *)
Definition handle_all (inbound : list (Q * LiveServerMessage))
    (w : World) : World :=
  fold_left (fun w' '(t, m) => session_onmessage t m w') inbound w.

End LiveClient.

(** ** The caller: App.tsx *)

Record App : Type := mkApp {
  connectionState : ConnectionState;
  volume : R;
  assistantMode : JsString;
  errorMsg : JsString;
  liveClientRef : option World
}.

Definition App_initial : App :=
  mkApp IDLE 0%R (Some (AssistantMode_value GENERAL)) None None.

(** The callbacks the application passes to [client.connect]. *)
Definition App_callback (c : Callback) (a : App) : App :=
  match c with
  | onOpen =>
      mkApp CONNECTED (volume a) (assistantMode a) (errorMsg a)
        (liveClientRef a)
  | onClose =>
      mkApp IDLE 0%R (Some (AssistantMode_value GENERAL)) (errorMsg a)
        (liveClientRef a)
  | onError err =>
      mkApp ERROR (volume a) (assistantMode a)
        (Some ("Connection Error: " +:+ error_message err))
        (liveClientRef a)
  | onAudioData vol =>
      mkApp (connectionState a) vol (assistantMode a) (errorMsg a)
        (liveClientRef a)
  | onModeChange mode =>
      mkApp (connectionState a) (volume a) mode (errorMsg a)
        (liveClientRef a)
  end.

Definition deliver (cs : list Callback) (a : App) : App :=
  fold_left (fun a' c => App_callback c a') cs a.

(** Run a method of the current client and deliver the callbacks it
    invoked; without a client nothing happens. *)
Definition with_client (method : M unit) (a : App) : Completion unit * App :=
  match liveClientRef a with
  | Some w =>
      let '(r, w') := method w in
      (r, deliver (drop (length (calls w)) (calls w'))
            (mkApp (connectionState a) (volume a) (assistantMode a)
               (errorMsg a) (Some w')))
  | None => (Normal tt, a)
  end.

Definition handleStartRequest (a : App) : App :=
  mkApp REQUESTING_PERMISSION (volume a) (assistantMode a) (errorMsg a)
    (liveClientRef a).

(** A string is falsy when it is undefined or empty. *)
Definition truthy (v : JsString) : bool :=
  match v with
  | Some s => negb (String.eqb s EmptyString)
  | None => false
  end.

(** [handlePermissionGranted]; [API_KEY] is [process.env.API_KEY]. *)
Definition handlePermissionGranted (API_KEY : JsString)
    (permission : Completion MediaStream) (handshake : Completion unit)
    (a : App) : Completion unit * App :=
  if truthy API_KEY then
    with_client (connect permission handshake)
      (mkApp CONNECTING (volume a) (Some (AssistantMode_value GENERAL))
         (errorMsg a) (Some new_LiveClient))
  else (Normal tt, a).

Definition handleDisconnect (a : App) : Completion unit * App :=
  match with_client disconnect a with
  | (Normal _, a') =>
      (Normal tt,
       mkApp IDLE 0%R (Some (AssistantMode_value GENERAL)) (errorMsg a') None)
  | (Throw e, a') => (Throw e, a')
  end.

(** The button of the error panel. *)
Definition reboot_system (a : App) : App :=
  mkApp IDLE (volume a) (assistantMode a) None (liveClientRef a).

(** ** Resources *)

(** The microphone is held while a track of the stream is live or the
    capture tap is connected. *)
Definition microphone_held (w : World) : bool :=
  match stream w with
  | Some s => existsb (fun t => if t is live then true else false) (getTracks s)
  | None => false
  end.

Definition capture_connected (w : World) : bool :=
  match mediaStreamSource w with
  | Some n => mss_connected n
  | None => false
  end
  || match scriptProcessor w with
     | Some n => sp_connected n
     | None => false
     end.

Definition context_open (c : option AudioContext) : bool :=
  match c with
  | Some ctx => negb (ctx_closed ctx)
  | None => false
  end.

(** Nothing is held: no playback handle is live, the capture path is torn
    down, the microphone is free and no device context is open. *)
Definition released (w : World) : bool :=
  bool_decide (sources w = ∅)
  && negb (microphone_held w)
  && negb (capture_connected w)
  && negb (context_open (inputAudioContext w))
  && negb (context_open (outputAudioContext w)).


(** * Notions used to state the properties *)

(** ** Tool calls *)

Definition is_setAssistantMode (fc : FunctionCall) : Prop :=
  fc_name fc = Some setAssistantMode.

#[global] Instance is_setAssistantMode_dec (fc : FunctionCall)
  : Decision (is_setAssistantMode fc).
Proof. unfold is_setAssistantMode. apply _. Defined.

(** The [mode] argument of a call, [undefined] when absent. *)
Definition requested_mode (fc : FunctionCall) : JsString :=
  args ← fc_args fc; args !! "mode".

Definition notification (fc : FunctionCall) : Callback :=
  onModeChange (requested_mode fc).

Definition acknowledgement (fc : FunctionCall) : FunctionResponse :=
  mkFunctionResponse (fc_id fc) (fc_name fc)
    ("Mode set to " +:+ template (requested_mode fc)).

(** A [setAssistantMode] entry carries an argument object, as the tool
    declaration requires. *)
Definition has_args (fc : FunctionCall) : Prop :=
  fc_name fc = Some setAssistantMode -> is_Some (fc_args fc).

(** The entries of the tool call of a message. *)
Definition batch (message : LiveServerMessage) : list FunctionCall :=
  match toolCall message with
  | Some tc => default [] (functionCalls tc)
  | None => []
  end.

Definition tool_response (p : option SessionPromise)
    (fcs : list FunctionCall) : list Outbound :=
  match p, map acknowledgement (filter is_setAssistantMode fcs) with
  | Some Fulfilled, (_ :: _) as responses => [sendToolResponse responses]
  | _, _ => []
  end.

(** The world after the tool-call part of a message. *)
Definition after_toolCall (message : LiveServerMessage) (w : World) : World :=
  set_outbox (outbox w ++ tool_response (session w) (batch message))
    (set_calls
       (calls w ++
        map notification (filter is_setAssistantMode (batch message))) w).

(** ** Playback *)

(** [source.stop()] inside [try { } catch(e) {}], on the store. *)
Definition halt (n : SourceNode) : SourceNode :=
  match startTime n with
  | Some _ => mkSourceNode (buffer n) (startTime n) true
  | None => n
  end.

Definition halt_at (id : nat) (ns : list SourceNode) : list SourceNode :=
  match ns !! id with
  | Some n => <[id := halt n]> ns
  | None => ns
  end.

Definition halt_all (ids : list nat) (ns : list SourceNode)
  : list SourceNode :=
  fold_left (fun ns' id => halt_at id ns') ids ns.

(** The world an interruption leaves. *)
Definition interrupted_world (w : World) : World :=
  set_nextStartTime 0
    (set_sources ∅
       (set_nodes (halt_all (elements (sources w)) (nodes w)) w)).

(** The world after a decoded chunk was enqueued at device time [now]. *)
Definition enqueued (now : Q) (buf : AudioBuffer) (w : World) : World :=
  set_sources ({[length (nodes w)]} ∪ sources w)
    (set_nextStartTime (Qmax (nextStartTime w) now + duration buf)
       (set_nodes
          (nodes w ++
           [mkSourceNode buf (Some (Qmax (nextStartTime w) now)) false])
          w)).

(** The client can play: it has an output context and an output node, and
    a session to answer to. *)
Definition ready (w : World) : Prop :=
  is_Some (outputAudioContext w) /\ is_Some (outputNode w) /\
  is_Some (session w).

(** The nodes a run of chunks creates, from the clock it starts with;
    each chunk is paired with the device time at which it is handled. *)
Fixpoint schedule (clock : Q) (chunks : list (Q * AudioBuffer))
  : list SourceNode :=
  match chunks with
  | [] => []
  | (now, buf) :: rest =>
      mkSourceNode buf (Some (Qmax clock now)) false
      :: schedule (Qmax clock now + duration buf) rest
  end.

(** The clock a run of chunks leaves. *)
Fixpoint clock_after (clock : Q) (chunks : list (Q * AudioBuffer)) : Q :=
  match chunks with
  | [] => clock
  | (now, buf) :: rest => clock_after (Qmax clock now + duration buf) rest
  end.

(** The message with everything after its first content part removed. *)
Definition first_part_only (message : LiveServerMessage) : LiveServerMessage :=
  mkMessage (toolCall message)
    ((fun sc =>
        mkServerContent
          ((fun mt => mkContent (take 1 <$> parts mt)) <$> modelTurn sc)
          (interrupted sc)) <$> serverContent message).

Section Decoding.

Context {utils : AudioUtilsModule}.

(** The two decoding steps applied to an inline chunk. *)
Definition decode_inline (audio : string) : Completion AudioBuffer :=
  match base64ToUint8Array audio with
  | Normal bytes => decodeAudioData bytes 24000 1
  | Throw e => Throw e
  end.

(** A message that carries a well-formed audio chunk with buffer [buf]. *)
Definition carries (message : LiveServerMessage) (buf : AudioBuffer) : Prop :=
  Forall has_args (batch message) /\
  exists audio, base64Audio message = Some audio /\ audio <> EmptyString /\
    decode_inline audio = Normal buf.

(** What [handleMessage] does after the tool calls, when it can play. *)
Definition audio_part (now : Q) (message : LiveServerMessage) : M unit :=
  handle_audio now message ;;
  if is_interrupted message then stopAllAudio else mret tt.

End Decoding.

(** ** Disconnecting *)

Definition not_closed (c : option AudioContext) : Prop :=
  forall ctx, c = Some ctx -> ctx_closed ctx = false.

(** The part of [disconnect] that follows [stopAllAudio]. *)
Definition teardown : M unit :=
  modify (fun w =>
    set_mediaStreamSource
      ((fun _ => mkMediaStreamSource false) <$> mediaStreamSource w) w) ;;
  modify (fun w =>
    set_scriptProcessor
      ((fun sp => mkScriptProcessor (sp_bufferSize sp) false)
         <$> scriptProcessor w) w) ;;
  modify (fun w => set_stream (stop_tracks <$> stream w) w) ;;
  close_inputAudioContext ;;
  close_outputAudioContext.

Definition closed_context (ctx : AudioContext) : AudioContext :=
  mkAudioContext (ctx_sampleRate ctx) true.

(** The world [teardown] leaves when no context was closed before. *)
Definition torn_down (w : World) : World :=
  mkWorld (closed_context <$> inputAudioContext w)
    (closed_context <$> outputAudioContext w)
    (inputNode w) (outputNode w) (sources w) (nextStartTime w)
    (stop_tracks <$> stream w) (session w)
    ((fun sp => mkScriptProcessor (sp_bufferSize sp) false)
       <$> scriptProcessor w)
    ((fun _ => mkMediaStreamSource false) <$> mediaStreamSource w)
    (nodes w) (calls w) (outbox w) (requests w).

(** ** Loudness *)

(** The sum of the squares of a frame, as a sum. *)
Definition sum_of_squares (frame : list Q) : Q :=
  foldr (fun x acc => x * x + acc) 0 frame.

(** ** Concrete sessions *)

Definition jarvis_handleMessage : Q -> LiveServerMessage -> M unit :=
  handleMessage (utils := reference_utils).

Definition jarvis_onmessage : Q -> LiveServerMessage -> World -> World :=
  session_onmessage (utils := reference_utils).

Definition jarvis_handle_all
  : list (Q * LiveServerMessage) -> World -> World :=
  handle_all (utils := reference_utils).

(** A client whose microphone was granted and whose session is open. *)
Definition open_session : World :=
  exec session_onopen
    (exec (connect (Normal (mkMediaStream [live])) (Normal tt))
       new_LiveClient).

Definition audio_message (audio : string) (flag : option bool)
  : LiveServerMessage :=
  mkMessage None
    (Some (mkServerContent
             (Some (mkContent
                      (Some [mkPart (Some (mkBlob (Some audio) None))])))
             flag)).

(** Three samples of silence: 6 bytes, 1/8000 s at 24 kHz. *)
Definition silence3 : string := "AAAAAAAA".

Definition silence3_buffer : AudioBuffer :=
  mkAudioBuffer [0 # 32768; 0 # 32768; 0 # 32768] 24000 1.

(** Three bytes: one sample and a half. *)
Definition truncated_chunk : string := "AAAA".

(** The open session with one chunk enqueued at device time 0. *)
Definition playing_session : World :=
  jarvis_onmessage 0 (audio_message silence3 None) open_session.

(** A captured frame of silence. *)
Definition silent_frame : list Q := repeat 0 (Z.to_nat 4096).

Definition mode_call (id mode : string) : FunctionCall :=
  mkFunctionCall (Some id) (Some setAssistantMode) (Some {[ "mode" := mode ]}).

Definition toolCall_message (fcs : list FunctionCall) : LiveServerMessage :=
  mkMessage (Some (mkToolCall (Some fcs))) None.

Definition homework_and_bogus : LiveServerMessage :=
  toolCall_message [mode_call "1" "HOMEWORK"; mode_call "2" "BOGUS"].

(** A message of two content parts, each with its inline data. *)
Definition two_part_message (first second : JsString) : LiveServerMessage :=
  mkMessage None
    (Some (mkServerContent
             (Some (mkContent
                      (Some [mkPart (Some (mkBlob first None));
                             mkPart (Some (mkBlob second None))])))
             None)).

(** One sample at full negative scale: 2 bytes, 1/24000 s. *)
Definition one_sample : string := "AIA=".

Definition one_sample_buffer : AudioBuffer :=
  mkAudioBuffer [-32768 # 32768] 24000 1.


(** * Further notions: the scheduler's invariant, event streams, the display *)

(** ** The invariant of the playback scheduler *)

(** Every live handle is a started node of the store, and it ends no later
    than the clock. *)
Definition scheduled_within_clock (w : World) : Prop :=
  forall id, id ∈ sources w ->
    exists n start,
      nodes w !! id = Some n /\ startTime n = Some start /\
      start + duration (buffer n) <= nextStartTime w.

(** ** Streams of events *)

Section Events.

Context {utils : AudioUtilsModule}.

(** The frames of the script processor, handled in capture order. *)
Definition capture_all (frames : list (list Q)) (w : World) : World :=
  fold_left (fun w' frame => exec (onaudioprocess frame) w') frames w.

(** An inbound message reaching the client the application holds. *)
Definition App_onmessage (currentTime : Q) (message : LiveServerMessage)
    (a : App) : App :=
  (with_client
     (fun w => (Normal tt, session_onmessage currentTime message w)) a).2.

End Events.

(** The remote end closing the session of the client the application
    holds. *)
Definition App_onclose (a : App) : App := (with_client session_onclose a).2.

(** The session of the client the application holds opening. *)
Definition App_onopen (a : App) : App := (with_client session_onopen a).2.

(** ** The display: App.tsx *)

(** [assistantMode === AssistantMode.X] on the value the state holds. *)
Definition mode_is (v : JsString) (m : AssistantMode) : bool :=
  match v with
  | Some s => String.eqb s (AssistantMode_value m)
  | None => false
  end.

Definition getBgClass (assistantMode : JsString) : string :=
  if mode_is assistantMode HOMEWORK then "from-purple-900 via-black to-black"
  else if mode_is assistantMode GK_QUIZ then "from-amber-900 via-black to-black"
  else if mode_is assistantMode SCIENCE
       then "from-emerald-900 via-black to-black"
  else "from-gray-900 via-black to-black".

Definition getTextClass (assistantMode : JsString) : string :=
  if mode_is assistantMode HOMEWORK then "text-purple-300"
  else if mode_is assistantMode GK_QUIZ then "text-amber-400"
  else if mode_is assistantMode SCIENCE then "text-emerald-300"
  else "text-cyan-300".

Definition getIndicatorClass (assistantMode : JsString) : string :=
  if mode_is assistantMode HOMEWORK
  then "bg-purple-400 shadow-[0_0_10px_#c084fc]"
  else if mode_is assistantMode GK_QUIZ
       then "bg-amber-400 shadow-[0_0_10px_#fbbf24]"
  else if mode_is assistantMode SCIENCE
       then "bg-emerald-400 shadow-[0_0_10px_#34d399]"
  else "bg-cyan-400 shadow-[0_0_10px_#22d3ee]".

(** [{cond && text}] renders the text when the condition holds. *)
Definition render_when (cond : bool) (text : string) : list string :=
  if cond then [text] else [].

(** The texts of the paragraph of the connected panel. *)
Definition mode_prompts (assistantMode : JsString) : list string :=
  render_when (mode_is assistantMode HOMEWORK)
    "Homework Protocol active. State your subject."
  ++ render_when (mode_is assistantMode GK_QUIZ)
       "GK Database loaded. Ready for questions."
  ++ render_when (mode_is assistantMode SCIENCE)
       "Science Lab initialized. Ready for analysis."
  ++ render_when (mode_is assistantMode GENERAL)
       "I am listening. How can I assist you?".

(** ** The display: JarvisVisualizer.tsx *)

Record Palette : Type := mkPalette {
  colorPrimary : string;
  colorSecondary : string;
  colorDetail : string;
  glowStart : string;
  glowEnd : string
}.

(** The colour configuration of the effect. *)
Definition palette (mode : JsString) : Palette :=
  if mode_is mode HOMEWORK then
    mkPalette "#c084fc" "#9333ea" "#e9d5ff"
      "rgba(192, 132, 252, 0.8)" "rgba(192, 132, 252, 0.1)"
  else if mode_is mode GK_QUIZ then
    mkPalette "#fbbf24" "#d97706" "#fde68a"
      "rgba(251, 191, 36, 0.8)" "rgba(251, 191, 36, 0.1)"
  else if mode_is mode SCIENCE then
    mkPalette "#34d399" "#059669" "#6ee7b7"
      "rgba(52, 211, 153, 0.8)" "rgba(52, 211, 153, 0.1)"
  else
    mkPalette "#22d3ee" "#06b6d4" "#a5f3fc"
      "rgba(34, 211, 238, 0.8)" "rgba(34, 211, 238, 0.1)".

(** The canvas is 300 by 300. *)
Definition canvas_width : R := 300.
Definition canvas_height : R := 300.

Definition baseRadius : R := 60.

Definition pulse (isActive : bool) (vol : R) : R :=
  if isActive then (Rmax 0 vol * (3 / 2))%R else 5%R.

Definition currentRadius (isActive : bool) (vol : R) : R :=
  (baseRadius + pulse isActive vol)%R.

(** The radius of the outer ring, drawn around the centre of the canvas. *)
Definition outer_ring_radius (isActive : bool) (vol : R) : R :=
  (currentRadius isActive vol + 40)%R.

(** What the visualizer receives from the application. *)
Definition visualizer_isActive (a : App) : bool :=
  if connectionState a is CONNECTED then true else false.

(** ** More concrete sessions *)

(** A batch whose second entry has no argument object. *)
Definition call_without_args : FunctionCall :=
  mkFunctionCall (Some "2") (Some setAssistantMode) None.

Definition unreadable_batch : LiveServerMessage :=
  toolCall_message [mode_call "1" "HOMEWORK"; call_without_args].


(** The application connected to the open session. *)
Definition connected_app : App :=
  mkApp CONNECTED 0%R (Some (AssistantMode_value GENERAL)) None
    (Some open_session).

(** Three samples of a frame. *)
Definition three_samples : list Q := [1; -1; 1 # 2].


(** * Properties *)

(** Unfold the monadic plumbing of a method body. *)
Ltac run_M :=
  unfold mbind, M_bind, mret, M_ret, lift, callback, request, modify, gets,
    throw, try_catch, exec; cbn.

(** Expose the record behind a chain of field assignments. *)
Ltac unfold_setters :=
  unfold set_inputAudioContext, set_outputAudioContext, set_inputNode,
    set_outputNode, set_sources, set_nextStartTime, set_stream, set_session,
    set_scriptProcessor, set_mediaStreamSource, set_nodes, set_calls,
    set_outbox, set_requests; cbn.

(** ** The transport and the codec on examples *)

Example base64_three_bytes :
  AudioUtils.base64ToUint8Array "AQID" = Normal [x01; x02; x03].
Proof. reflexivity. Qed.

Example base64_padding :
  AudioUtils.base64ToUint8Array "AQI=" = Normal [x01; x02].
Proof. reflexivity. Qed.

Example base64_outside_alphabet :
  AudioUtils.base64ToUint8Array "A?ID" = Throw DecodeError.
Proof. reflexivity. Qed.

Example encode_extremes :
  AudioUtils.createPcmBlob [1 # 2; - (1 # 2); 1; -1] =
  [x00; x40; x00; xc0; xff; x7f; x00; x80].
Proof. vm_compute. reflexivity. Qed.

Example decode_odd_length :
  AudioUtils.decode [x00; x40; x00] 24000 1 = Throw DecodeError.
Proof. reflexivity. Qed.

(** ** The PCM codec *)

Lemma Z_of_byte_of_Z (z : Z) :
  AudioUtils.Z_of_byte (AudioUtils.byte_of_Z z) = (z mod 256)%Z.
Proof.
  unfold AudioUtils.Z_of_byte, AudioUtils.byte_of_Z.
  assert (Hr : (0 <= z mod 256 < 256)%Z) by (apply Z.mod_pos_bound; lia).
  destruct (Byte.of_N (Z.to_N (z mod 256))) as [b|] eqn:Hb.
  - apply Byte.to_of_N in Hb. rewrite Hb. lia.
  - apply Byte.of_N_None_iff in Hb. lia.
Qed.

Lemma int16_le_round_trip (v : Z) :
  (AudioUtils.INT16_MIN <= v <= AudioUtils.INT16_MAX)%Z ->
  AudioUtils.int16_of_le (AudioUtils.byte_of_Z v)
    (AudioUtils.byte_of_Z (v / 256)) = v.
Proof.
  unfold AudioUtils.INT16_MIN, AudioUtils.INT16_MAX, AudioUtils.int16_of_le.
  intros Hv. rewrite !Z_of_byte_of_Z.
  pose proof (Z.div_mod v 256 ltac:(lia)) as Hd.
  pose proof (Z.mod_pos_bound v 256 ltac:(lia)) as Hm.
  pose proof (Z.div_mod (v / 256) 256 ltac:(lia)) as Hd2.
  pose proof (Z.mod_pos_bound (v / 256) 256 ltac:(lia)) as Hm2.
  assert (Hq : (-128 <= v / 256 < 128)%Z) by lia.
  destruct (Z.ltb_spec (v mod 256 + 256 * ((v / 256) mod 256)) 32768); lia.
Qed.

Lemma clamp16_range (z : Z) :
  (AudioUtils.INT16_MIN <= AudioUtils.clamp16 z <= AudioUtils.INT16_MAX)%Z.
Proof.
  unfold AudioUtils.clamp16, AudioUtils.INT16_MIN, AudioUtils.INT16_MAX. lia.
Qed.

(** One sample: scaling, conversion and clamp lose at most one step of the
    16-bit grid. *)
Lemma quantization_error (to_int : Q -> Z) (x : Q) :
  (forall q, Qabs (inject_Z (to_int q) - q) < 1) ->
  -1 <= x <= 1 ->
  Qabs (inject_Z (AudioUtils.encode_sample to_int x)
        / inject_Z AudioUtils.int16_range - x) <= 1 # 32768.
Proof.
  intros Hto [Hlo Hhi].
  unfold AudioUtils.encode_sample, AudioUtils.int16_range.
  change (inject_Z 32768) with (32768 # 1).
  set (q := x * (32768 # 1)).
  specialize (Hto q). apply Qabs_Qlt_condition in Hto.
  destruct Hto as [H1 H2].
  set (z := to_int q) in *.
  assert (Hzlo : (-32769 < z)%Z).
  { rewrite Zlt_Qlt. change (inject_Z (-32769)) with (-32769 # 1).
    subst q. Lqa.lra. }
  assert (Hzhi : (z < 32769)%Z).
  { rewrite Zlt_Qlt. change (inject_Z 32769) with (32769 # 1).
    subst q. Lqa.lra. }
  apply Qabs_Qle_condition. unfold Qdiv.
  change (/ (32768 # 1)) with (1 # 32768).
  destruct (Z.eq_dec z 32768) as [He|Hne].
  - replace (AudioUtils.clamp16 z) with 32767%Z
      by (unfold AudioUtils.clamp16, AudioUtils.INT16_MIN,
            AudioUtils.INT16_MAX; lia).
    rewrite He in H1, H2. change (inject_Z 32768) with (32768 # 1) in *.
    change (inject_Z 32767) with (32767 # 1). subst q. split; Lqa.lra.
  - replace (AudioUtils.clamp16 z) with z
      by (unfold AudioUtils.clamp16, AudioUtils.INT16_MIN,
            AudioUtils.INT16_MAX; lia).
    subst q. split; Lqa.lra.
Qed.

Lemma Qtruncate_error (q : Q) :
  Qabs (inject_Z (AudioUtils.Qtruncate q) - q) < 1.
Proof.
  unfold AudioUtils.Qtruncate. apply Qabs_Qlt_condition.
  destruct (Qle_bool 0 q).
  - pose proof (Qfloor_le q). pose proof (Qlt_floor q) as Hlt.
    rewrite inject_Z_plus in Hlt. change (inject_Z 1) with 1 in Hlt.
    set (f := inject_Z (Qfloor q)) in *. clearbody f. split; Lqa.lra.
  - pose proof (Qle_ceiling q). pose proof (Qceiling_lt q) as Hlt.
    unfold Z.sub in Hlt. rewrite inject_Z_plus in Hlt.
    change (inject_Z (Z.opp 1)) with (-1 # 1) in Hlt.
    set (c := inject_Z (Qceiling q)) in *. clearbody c. split; Lqa.lra.
Qed.

Lemma decode_encode (to_int : Q -> Z) (samples : list Q) :
  AudioUtils.decode_samples (AudioUtils.encode to_int samples) =
  Normal (map (fun x => inject_Z (AudioUtils.encode_sample to_int x)
                        / inject_Z AudioUtils.int16_range) samples).
Proof.
  induction samples as [|x l IH]; [reflexivity|].
  unfold AudioUtils.encode.
  cbn [flat_map AudioUtils.int16_to_le app AudioUtils.decode_samples map].
  fold (AudioUtils.encode to_int l). rewrite IH.
  unfold AudioUtils.decode_sample.
  rewrite int16_le_round_trip by apply clamp16_range. reflexivity.
Qed.

Lemma encode_length (to_int : Q -> Z) (samples : list Q) :
  length (AudioUtils.encode to_int samples) = (2 * length samples)%nat.
Proof.
  induction samples as [|x l IH]; [reflexivity|].
  unfold AudioUtils.encode. cbn [flat_map AudioUtils.int16_to_le app length].
  fold (AudioUtils.encode to_int l). rewrite IH. lia.
Qed.

(** C4. For every sequence of samples in [-1,1], decoding the encoding
    (scaling by the signed 16-bit range, any conversion to an integer that
    stays within one unit, clamp to 16 bits, two little-endian bytes per
    sample; back by sign extension and division by the range) succeeds and
    returns as many samples, each within 1/32768 of the original. *)
Theorem pcm_round_trip (to_int : Q -> Z) (samples : list Q)
    (rate channels : positive) :
  (forall q, Qabs (inject_Z (to_int q) - q) < 1) ->
  Forall (fun x => -1 <= x <= 1) samples ->
  exists b,
    AudioUtils.decode (AudioUtils.encode to_int samples) rate channels
      = Normal b /\
    sampleRate b = rate /\ numberOfChannels b = channels /\
    Forall2 (fun x y => Qabs (y - x) <= 1 # 32768) samples (channelData b).
Proof.
  intros Hto Hs. unfold AudioUtils.decode. rewrite decode_encode.
  eexists. split; [reflexivity|]. cbn.
  split; [reflexivity|]. split; [reflexivity|].
  induction Hs as [|x l Hx Hl IH]; cbn; constructor; auto.
  apply quantization_error; assumption.
Qed.

(** C4 on three samples, with truncation toward zero. *)
Lemma pcm_round_trip_witness :
  exists b,
    AudioUtils.decode
      (AudioUtils.encode AudioUtils.Qtruncate [1 # 3; -1; 1]) 24000 1
      = Normal b /\
    sampleRate b = 24000%positive /\ numberOfChannels b = 1%positive /\
    Forall2 (fun x y => Qabs (y - x) <= 1 # 32768) [1 # 3; -1; 1]
      (channelData b).
Proof.
  apply (pcm_round_trip AudioUtils.Qtruncate [1 # 3; -1; 1] 24000 1).
  - exact Qtruncate_error.
  - repeat constructor; vm_compute; congruence.
Defined.

(** ** Field assignment *)

Lemma set_calls_same (w : World) : set_calls (calls w) w = w.
Proof. destruct w; reflexivity. Qed.

Lemma set_outbox_same (w : World) : set_outbox (outbox w) w = w.
Proof. destruct w; reflexivity. Qed.

(** ** Tool calls *)

Lemma for_functionCalls_run (fcs : list FunctionCall) :
  Forall has_args fcs ->
  forall (responses : list FunctionResponse) (w : World),
    for_functionCalls fcs responses w =
    (Normal (responses ++ map acknowledgement (filter is_setAssistantMode fcs)),
     set_calls (calls w ++ map notification (filter is_setAssistantMode fcs)) w).
Proof.
  induction 1 as [|fc rest Hfc Hrest IH]; intros responses w.
  - cbn. rewrite !app_nil_r, set_calls_same. reflexivity.
  - cbn [for_functionCalls]. unfold handle_functionCall.
    destruct (decide (fc_name fc = Some setAssistantMode)) as [Hn|Hn].
    + rewrite (filter_cons_True is_setAssistantMode _ _ Hn).
      destruct (Hfc Hn) as [args Hargs].
      cbn [map]. unfold notification at 1, acknowledgement at 1, requested_mode.
      rewrite Hargs. run_M. rewrite IH. cbn.
      rewrite <- !app_assoc. reflexivity.
    + rewrite (filter_cons_False is_setAssistantMode _ _ Hn).
      run_M. rewrite IH. reflexivity.
Qed.

Lemma after_toolCall_nil (message : LiveServerMessage) (w : World) :
  batch message = [] -> after_toolCall message w = w.
Proof.
  intros Hb. unfold after_toolCall, tool_response. rewrite Hb. cbn.
  destruct (session w) as [[|?]|]; rewrite !app_nil_r; destruct w; reflexivity.
Qed.

Lemma handle_toolCall_run (message : LiveServerMessage) (w : World) :
  Forall has_args (batch message) ->
  is_Some (session w) ->
  handle_toolCall message w = (Normal tt, after_toolCall message w).
Proof.
  intros Hargs [p Hp]. unfold handle_toolCall.
  destruct (toolCall message) as [tc|] eqn:Htc;
    [|rewrite after_toolCall_nil; [reflexivity | unfold batch; rewrite Htc; reflexivity]].
  destruct (functionCalls tc) as [[|fc fcs]|] eqn:Hfcs;
    try (rewrite after_toolCall_nil;
         [reflexivity | unfold batch; rewrite Htc, Hfcs; reflexivity]).
  assert (Hb : batch message = fc :: fcs)
    by (unfold batch; rewrite Htc, Hfcs; reflexivity).
  rewrite Hb in Hargs. unfold mbind, M_bind.
  rewrite (for_functionCalls_run _ Hargs). cbn [app].
  unfold after_toolCall, tool_response. rewrite Hb, Hp.
  destruct (map acknowledgement (filter is_setAssistantMode (fc :: fcs)))
    as [|r rs].
  - run_M. destruct p; rewrite app_nil_r; destruct w; reflexivity.
  - unfold session_then. cbn. rewrite Hp.
    destruct p; [reflexivity|]. rewrite app_nil_r. destruct w; reflexivity.
Qed.

(** ** Interruption *)


Lemma halt_not_playing (n : SourceNode) : playing (halt n) = false.
Proof. unfold halt, playing. destruct (startTime n) eqn:H; cbn; rewrite ?H; reflexivity. Qed.

Lemma halt_startTime (n : SourceNode) : startTime (halt n) = startTime n.
Proof. unfold halt. destruct (startTime n) eqn:H; cbn; congruence. Qed.

Lemma halt_buffer (n : SourceNode) : buffer (halt n) = buffer n.
Proof. unfold halt. destruct (startTime n); reflexivity. Qed.

Lemma halt_halt (n : SourceNode) : halt (halt n) = halt n.
Proof. unfold halt. destruct (startTime n) eqn:H; cbn; rewrite ?H; reflexivity. Qed.

Lemma halt_at_length (id : nat) (ns : list SourceNode) :
  length (halt_at id ns) = length ns.
Proof. unfold halt_at. destruct (ns !! id); [apply length_insert | reflexivity]. Qed.

Lemma halt_at_lookup (id i : nat) (ns : list SourceNode) :
  halt_at id ns !! i =
  (if decide (i = id) then halt else (fun n => n)) <$> ns !! i.
Proof.
  unfold halt_at. destruct (ns !! id) as [n|] eqn:Hn.
  - destruct (decide (i = id)) as [->|Hne].
    + rewrite list_lookup_insert_eq by (eapply lookup_lt_Some; eassumption).
      rewrite Hn. reflexivity.
    + rewrite list_lookup_insert_ne by congruence.
      destruct (ns !! i); reflexivity.
  - destruct (decide (i = id)) as [->|Hne].
    + rewrite Hn. reflexivity.
    + destruct (ns !! i); reflexivity.
Qed.

Lemma halt_all_length (ids : list nat) (ns : list SourceNode) :
  length (halt_all ids ns) = length ns.
Proof.
  revert ns. induction ids as [|id ids IH]; intros ns; [reflexivity|].
  cbn. rewrite IH. apply halt_at_length.
Qed.

(** Every node keeps its buffer and its start time; the nodes named in
    [ids] are silenced, the others are untouched. *)
Lemma halt_all_lookup (ids : list nat) (ns : list SourceNode) (i : nat)
    (n' : SourceNode) :
  halt_all ids ns !! i = Some n' ->
  exists n, ns !! i = Some n /\
    (i ∈ ids -> n' = halt n) /\ (i ∉ ids -> n' = n).
Proof.
  revert ns. induction ids as [|id ids IH]; intros ns Hn'.
  - exists n'. split; [assumption|]. split; [|reflexivity].
    intros Hin. apply elem_of_nil in Hin. contradiction.
  - cbn in Hn'. destruct (IH _ Hn') as (m & Hm & Hin & Hout).
    rewrite halt_at_lookup in Hm.
    destruct (ns !! i) as [n|] eqn:Hn; [|discriminate].
    exists n. split; [reflexivity|]. cbn in Hm. injection Hm as Hm.
    destruct (decide (i = id)) as [->|Hne].
    + split; intros Hi.
      * destruct (decide (id ∈ ids)) as [Hi'|Hi'].
        -- rewrite (Hin Hi'), <- Hm. apply halt_halt.
        -- rewrite (Hout Hi'). symmetry. exact Hm.
      * exfalso. apply Hi. apply elem_of_cons. left. reflexivity.
    + subst m. split; intros Hi.
      * apply Hin. apply elem_of_cons in Hi. destruct Hi; [contradiction|assumption].
      * apply Hout. intros Hi'. apply Hi. apply elem_of_cons. right. assumption.
Qed.

Lemma stop_each_run (ids : list nat) (w : World) :
  stop_each ids w = (Normal tt, set_nodes (halt_all ids (nodes w)) w).
Proof.
  revert w. induction ids as [|id ids IH]; intros w.
  - cbn. destruct w; reflexivity.
  - cbn [stop_each]. unfold mbind, M_bind, try_catch, source_stop.
    unfold halt_all; cbn [fold_left]; fold (halt_all ids).
    unfold halt_at, halt.
    destruct (nodes w !! id) as [n|] eqn:Hn;
      [destruct (startTime n) eqn:Hs|]; cbn; rewrite IH; cbn.
    + reflexivity.
    + rewrite list_insert_id by assumption. reflexivity.
    + reflexivity.
Qed.

Lemma stopAllAudio_run (w : World) :
  stopAllAudio w = (Normal tt, interrupted_world w).
Proof.
  unfold stopAllAudio, mbind, M_bind, gets. rewrite stop_each_run.
  reflexivity.
Qed.

Section Playback.

Context {utils : AudioUtilsModule}.

(** ** Scheduling *)

Lemma play_chunk_run (now : Q) (audio : string) (buf : AudioBuffer)
    (w : World) :
  decode_inline audio = Normal buf ->
  play_chunk now audio w =
  (Normal tt, enqueued now buf w).
Proof.
  unfold decode_inline, play_chunk. intros Hd. run_M.
  destruct (base64ToUint8Array audio) as [bytes|e]; [|discriminate].
  rewrite Hd. reflexivity.
Qed.

Lemma play_chunk_fail (now : Q) (audio : string) (e : JsError) (w : World) :
  decode_inline audio = Throw e ->
  play_chunk now audio w =
  (Throw e, set_nextStartTime (Qmax (nextStartTime w) now) w).
Proof.
  unfold decode_inline, play_chunk. intros Hd. run_M.
  destruct (base64ToUint8Array audio) as [bytes|e'].
  - rewrite Hd. reflexivity.
  - injection Hd as ->. reflexivity.
Qed.

Lemma handleMessage_run (now : Q) (message : LiveServerMessage) (w : World) :
  Forall has_args (batch message) ->
  ready w ->
  handleMessage now message w =
  (handle_audio now message ;;
   if is_interrupted message then stopAllAudio else mret tt)
    (after_toolCall message w).
Proof.
  intros Hargs (Hctx & Hout & Hs). unfold handleMessage.
  unfold mbind at 1, M_bind at 1. rewrite handle_toolCall_run by assumption.
  unfold mbind at 1, M_bind at 1, gets. cbn.
  rewrite !bool_decide_eq_true_2 by assumption. reflexivity.
Qed.

Lemma ready_after_toolCall (message : LiveServerMessage) (w : World) :
  ready w -> ready (after_toolCall message w).
Proof. intros H. exact H. Qed.

Lemma onmessage_chunk (now : Q) (message : LiveServerMessage)
    (buf : AudioBuffer) (w : World) :
  ready w -> carries message buf -> is_interrupted message = false ->
  session_onmessage now message w =
  enqueued now buf (after_toolCall message w).
Proof.
  intros Hr (Hargs & audio & Ha & Hne & Hd) Hi.
  unfold session_onmessage, exec. rewrite handleMessage_run by assumption.
  unfold mbind, M_bind, handle_audio. rewrite Ha, Hi.
  destruct (decide (audio = EmptyString)) as [?|_]; [contradiction|].
  rewrite (play_chunk_run _ _ _ _ Hd). reflexivity.
Qed.

Lemma handle_all_cons (now : Q) (message : LiveServerMessage)
    (inbound : list (Q * LiveServerMessage)) (w : World) :
  handle_all ((now, message) :: inbound) w =
  handle_all inbound
    (session_onmessage now message w).
Proof. reflexivity. Qed.

Lemma handle_all_chunks (inbound : list (Q * LiveServerMessage))
    (bufs : list AudioBuffer) :
  Forall2 (fun tm buf => carries tm.2 buf /\ is_interrupted tm.2 = false)
    inbound bufs ->
  forall w, ready w ->
    ready (handle_all inbound w) /\
    nodes (handle_all inbound w) =
    nodes w ++ schedule (nextStartTime w) (zip inbound.*1 bufs).
Proof.
  induction 1 as [|[now m] buf inbound bufs [Hc Hi] _ IH]; intros w Hr.
  - cbn. rewrite app_nil_r. split; [assumption | reflexivity].
  - rewrite handle_all_cons. cbn in Hc, Hi. rewrite (onmessage_chunk _ _ _ _ Hr Hc Hi).
    destruct (IH (enqueued now buf (after_toolCall m w))) as [Hr' Hn];
      [exact Hr|].
    split; [exact Hr'|]. rewrite Hn. cbn. rewrite <- app_assoc. reflexivity.
Qed.

(** Consecutive nodes of a schedule: the later one starts at the end of the
    earlier one, or at the device time if that is later. *)
Lemma schedule_consecutive (chunks : list (Q * AudioBuffer)) :
  forall (clock : Q) (i : nat) (a b : SourceNode) (now : Q)
         (buf : AudioBuffer),
    schedule clock chunks !! i = Some a ->
    schedule clock chunks !! S i = Some b ->
    chunks !! S i = Some (now, buf) ->
    exists start,
      startTime a = Some start /\
      buffer b = buf /\
      startTime b = Some (Qmax (start + duration (buffer a)) now).
Proof.
  induction chunks as [|[t0 b0] rest IH]; intros clock i a b now buf Ha Hb Hc;
    [discriminate|].
  destruct i as [|i].
  - cbn in Ha. injection Ha as <-. cbn in Hc.
    destruct rest as [|[t1 b1] rest]; [discriminate|].
    cbn in Hb, Hc. injection Hb as <-. injection Hc as -> ->.
    eexists. cbn. repeat split; reflexivity.
  - cbn in Ha, Hb, Hc. eapply IH; eassumption.
Qed.

Lemma schedule_first (chunks : list (Q * AudioBuffer)) (clock : Q)
    (a : SourceNode) (now : Q) (buf : AudioBuffer) :
  schedule clock chunks !! 0%nat = Some a ->
  chunks !! 0%nat = Some (now, buf) ->
  a = mkSourceNode buf (Some (Qmax clock now)) false.
Proof.
  destruct chunks as [|[t0 b0] rest]; [discriminate|].
  cbn. intros [= <-] [= -> ->]. reflexivity.
Qed.

Lemma schedule_length (chunks : list (Q * AudioBuffer)) (clock : Q) :
  length (schedule clock chunks) = length chunks.
Proof.
  revert clock. induction chunks as [|[t b] rest IH]; intros clock;
    [reflexivity|]. cbn. rewrite IH. reflexivity.
Qed.

Lemma handle_all_clock (inbound : list (Q * LiveServerMessage))
    (bufs : list AudioBuffer) :
  Forall2 (fun tm buf => carries tm.2 buf /\ is_interrupted tm.2 = false)
    inbound bufs ->
  forall w, ready w ->
    nextStartTime (handle_all inbound w) =
    clock_after (nextStartTime w) (zip inbound.*1 bufs).
Proof.
  induction 1 as [|[now m] buf inbound bufs [Hc Hi] _ IH]; intros w Hr;
    [reflexivity|].
  rewrite handle_all_cons. cbn in Hc, Hi.
  rewrite (onmessage_chunk _ _ _ _ Hr Hc Hi).
  rewrite IH by exact Hr. reflexivity.
Qed.

Lemma clock_after_last (chunks : list (Q * AudioBuffer)) :
  forall (clock : Q) (a : SourceNode),
    last (schedule clock chunks) = Some a ->
    exists start, startTime a = Some start /\
      clock_after clock chunks = start + duration (buffer a).
Proof.
  induction chunks as [|[t0 b0] rest IH]; intros clock a Ha; [discriminate|].
  destruct rest as [|[t1 b1] rest].
  - cbn in Ha. injection Ha as <-. eexists. split; reflexivity.
  - apply (IH (Qmax clock t0 + duration b0) a). exact Ha.
Qed.

Lemma zip_lookup_time (inbound : list (Q * LiveServerMessage))
    (bufs : list AudioBuffer) (i : nat) (now : Q) (m : LiveServerMessage) :
  length inbound = length bufs ->
  inbound !! i = Some (now, m) ->
  exists buf, zip inbound.*1 bufs !! i = Some (now, buf).
Proof.
  revert bufs i. induction inbound as [|[t m'] inbound IH];
    intros [|b bufs] [|i] Hlen Hi; try discriminate.
  - injection Hi as -> ->. eexists. reflexivity.
  - cbn in *. apply IH; [lia | assumption].
Qed.

Lemma schedule_buffers (chunks : list (Q * AudioBuffer)) (clock : Q) :
  map buffer (schedule clock chunks) = chunks.*2.
Proof.
  revert clock. induction chunks as [|[t b] rest IH]; intros clock;
    [reflexivity|]. cbn. rewrite IH. reflexivity.
Qed.

(** C1 (amended). A run of audio chunks handled with no interruption in
    between creates one playback handle per chunk, in arrival order.  The
    first starts at max(PlaybackClock, device time); every later one starts
    at max(start of the previous one + its duration, device time at which
    the later chunk is handled), because the clock advanced by the previous
    duration.  Hence a chunk never starts before the previous one has ended
    (no overlap), and it starts exactly when the previous one ends (no gap)
    whenever the device time has not yet passed that point.  The clock
    after the run is the start of the last chunk plus its duration. *)
Theorem chunks_play_in_sequence (inbound : list (Q * LiveServerMessage))
    (bufs : list AudioBuffer) (w : World) :
  ready w ->
  Forall2 (fun tm buf => carries tm.2 buf /\ is_interrupted tm.2 = false)
    inbound bufs ->
  exists new : list SourceNode,
    nodes (handle_all inbound w) =
      nodes w ++ new /\
    map buffer new = bufs /\
    (forall a now m,
        new !! 0%nat = Some a -> inbound !! 0%nat = Some (now, m) ->
        startTime a = Some (Qmax (nextStartTime w) now)) /\
    (forall i a b now m,
        new !! i = Some a -> new !! S i = Some b ->
        inbound !! S i = Some (now, m) ->
        exists sa sb,
          startTime a = Some sa /\ startTime b = Some sb /\
          sb = Qmax (sa + duration (buffer a)) now /\
          sa + duration (buffer a) <= sb /\
          (now <= sa + duration (buffer a) ->
           sb == sa + duration (buffer a))) /\
    (forall a, last new = Some a ->
        exists sa, startTime a = Some sa /\
          nextStartTime
            (handle_all inbound w) =
          sa + duration (buffer a)).
Proof.
  intros Hr Hin.
  destruct (handle_all_chunks _ _ Hin w Hr) as [_ Hn].
  pose proof (handle_all_clock _ _ Hin w Hr) as Hclock.
  pose proof (Forall2_length _ _ _ Hin) as Hlen.
  exists (schedule (nextStartTime w) (zip inbound.*1 bufs)).
  split; [exact Hn|]. split.
  { rewrite schedule_buffers. apply snd_zip. rewrite length_fmap. lia. }
  split; [|split].
  - intros a now m Ha Hi.
    destruct (zip_lookup_time _ _ _ _ _ Hlen Hi) as [buf Hz].
    rewrite (schedule_first _ _ _ _ _ Ha Hz). reflexivity.
  - intros i a b now m Ha Hb Hi.
    destruct (zip_lookup_time _ _ _ _ _ Hlen Hi) as [buf Hz].
    destruct (schedule_consecutive _ _ _ _ _ _ _ Ha Hb Hz)
      as (sa & Hsa & _ & Hsb).
    exists sa, (Qmax (sa + duration (buffer a)) now).
    repeat split; try assumption.
    + apply Q.le_max_l.
    + intros Hle. apply Q.max_l. exact Hle.
  - intros a Ha. rewrite Hclock. apply clock_after_last. exact Ha.
Qed.

(** ** What the audio part of a message leaves alone *)

Lemma handle_audio_cases (now : Q) (message : LiveServerMessage) (w : World) :
  handle_audio now message w = (Normal tt, w)
  \/ (exists audio buf,
        base64Audio message = Some audio /\ audio <> EmptyString /\
        decode_inline audio = Normal buf /\
        handle_audio now message w =
        (Normal tt, enqueued now buf w))
  \/ (exists audio e,
        base64Audio message = Some audio /\ audio <> EmptyString /\
        decode_inline audio = Throw e /\
        handle_audio now message w =
        (Throw e, set_nextStartTime (Qmax (nextStartTime w) now) w)).
Proof.
  unfold handle_audio.
  destruct (base64Audio message) as [audio|] eqn:Ha; [|left; reflexivity].
  destruct (decide (audio = EmptyString)) as [He|Hne]; [left; reflexivity|].
  destruct (decode_inline audio) as [buf|e] eqn:Hd.
  - right; left. exists audio, buf. repeat split; try assumption; try reflexivity.
    apply play_chunk_run; assumption.
  - right; right. exists audio, e. repeat split; try assumption; try reflexivity.
    apply play_chunk_fail; assumption.
Qed.

Lemma audio_part_frame (now : Q) (message : LiveServerMessage) (w : World) :
  let w' := exec (audio_part now message) w in
  calls w' = calls w /\ outbox w' = outbox w /\
  (length (nodes w) <= length (nodes w') <= length (nodes w) + 1)%nat.
Proof.
  unfold audio_part, exec, mbind, M_bind.
  destruct (handle_audio_cases now message w)
    as [H | [(audio & buf & _ & _ & _ & H) | (audio & e & _ & _ & _ & H)]];
    rewrite H; cbn.
  - destruct (is_interrupted message);
      [rewrite stopAllAudio_run|]; cbn; rewrite ?halt_all_length;
      repeat split; lia.
  - destruct (is_interrupted message);
      [rewrite stopAllAudio_run|]; cbn; rewrite ?halt_all_length;
      rewrite length_app; cbn; repeat split; lia.
  - repeat split; lia.
Qed.

(** [handleMessage] in three steps. *)
Lemma handleMessage_steps (now : Q) (message : LiveServerMessage) (w : World) :
  handleMessage now message w =
  match handle_toolCall message w with
  | (Normal _, w1) =>
      if bool_decide (is_Some (outputAudioContext w1))
         && bool_decide (is_Some (outputNode w1))
      then audio_part now message w1
      else (Normal tt, w1)
  | (Throw e, w1) => (Throw e, w1)
  end.
Proof.
  unfold handleMessage, mbind at 1, M_bind at 1.
  destruct (handle_toolCall message w) as [[[]|e] w1]; [|reflexivity].
  unfold mbind at 1, M_bind at 1, gets.
  destruct (bool_decide _ && bool_decide _); reflexivity.
Qed.

Lemma for_functionCalls_nodes (fcs : list FunctionCall) :
  forall (responses : list FunctionResponse) (w : World),
    nodes (for_functionCalls fcs responses w).2 = nodes w.
Proof.
  induction fcs as [|fc fcs IH]; intros responses w; [reflexivity|].
  cbn [for_functionCalls]. unfold handle_functionCall.
  destruct (decide (fc_name fc = Some setAssistantMode)); run_M.
  - destruct (fc_args fc); [|reflexivity]. rewrite IH. reflexivity.
  - apply IH.
Qed.

Lemma handle_toolCall_nodes (message : LiveServerMessage) (w : World) :
  nodes (handle_toolCall message w).2 = nodes w.
Proof.
  unfold handle_toolCall.
  destruct (toolCall message) as [tc|]; [|reflexivity].
  destruct (functionCalls tc) as [[|fc fcs]|]; try reflexivity.
  unfold mbind, M_bind.
  pose proof (for_functionCalls_nodes (fc :: fcs) [] w) as Hn.
  destruct (for_functionCalls (fc :: fcs) [] w) as [[rs|e] w1]; cbn in Hn;
    [|exact Hn].
  destruct rs; [exact Hn|]. unfold session_then.
  destruct (session w1) as [[|?]|]; cbn; exact Hn.
Qed.

(** ** Interruption and the next chunk *)

(** C2. From every state, [stopAllAudio] (the interruption) returns without
    raising, whatever the state of the handles in the live set; afterwards
    the live set is empty, the clock is 0, every handle that was live is
    silent (no node was added or removed), and the next chunk handled, at a
    device time [now >= 0], is scheduled to start at [now]. *)
Theorem interrupt_resets_playback (w : World) :
  exists w',
    stopAllAudio w = (Normal tt, w') /\
    sources w' = ∅ /\
    nextStartTime w' = 0 /\
    length (nodes w') = length (nodes w) /\
    (forall id n,
        id ∈ sources w -> nodes w' !! id = Some n -> playing n = false) /\
    (forall now message buf,
        ready w -> 0 <= now -> carries message buf ->
        exists n start,
          nodes (session_onmessage now message w') !! length (nodes w') = Some n /\
          buffer n = buf /\ startTime n = Some start /\ start == now).
Proof.
  exists (interrupted_world w). split; [apply stopAllAudio_run|].
  split; [reflexivity|]. split; [reflexivity|]. split.
  { cbn. apply halt_all_length. }
  split.
  - intros id n Hid Hn. cbn in Hn.
    destruct (halt_all_lookup _ _ _ _ Hn) as (n0 & _ & Hin & _).
    rewrite Hin by (apply elem_of_elements; exact Hid).
    apply halt_not_playing.
  - intros now message buf Hr Hnow (Hargs & audio & Ha & Hne & Hd).
    assert (Hr' : ready (interrupted_world w)) by exact Hr.
    unfold session_onmessage, exec.
    rewrite handleMessage_run by assumption.
    unfold mbind, M_bind, handle_audio. rewrite Ha.
    destruct (decide (audio = EmptyString)) as [?|_]; [contradiction|].
    rewrite (play_chunk_run _ _ _ _ Hd).
    set (w1 := after_toolCall message (interrupted_world w)).
    assert (Hlen : length (nodes w1) = length (nodes (interrupted_world w)))
      by reflexivity.
    assert (Hclock : nextStartTime w1 = 0) by reflexivity.
    set (new := mkSourceNode buf (Some (Qmax 0 now)) false).
    assert (Hnew : nodes (enqueued now buf w1) !! length (nodes w1) = Some new).
    { cbn. rewrite lookup_app_r by reflexivity.
      rewrite Nat.sub_diag. reflexivity. }
    rewrite <- Hlen.
    destruct (is_interrupted message).
    + rewrite stopAllAudio_run. cbn [snd].
      assert (Hlt : (length (nodes w1) <
                     length (nodes (interrupted_world (enqueued now buf w1))))%nat).
      { cbn. rewrite !halt_all_length, length_app, halt_all_length. cbn. lia. }
      destruct (lookup_lt_is_Some_2 _ _ Hlt) as [n Hn].
      exists n, (Qmax 0 now). split; [exact Hn|].
      cbn in Hn. destruct (halt_all_lookup _ _ _ _ Hn) as (n0 & Hn0 & Hin & Hout).
      cbn in Hnew. rewrite Hnew in Hn0. injection Hn0 as <-.
      destruct (decide (length (nodes w1) ∈
                        elements ({[length (nodes w1)]} ∪ sources w1)))
        as [Hi|Hi].
      * rewrite (Hin Hi). rewrite halt_buffer, halt_startTime.
        repeat split. apply Q.max_r. exact Hnow.
      * rewrite (Hout Hi). repeat split. apply Q.max_r. exact Hnow.
    + exists new, (Qmax 0 now). cbn [snd]. split; [exact Hnew|].
      repeat split. apply Q.max_r. exact Hnow.
Qed.

(** ** A chunk that fails to decode *)

(** C6 (amended). When the inline chunk of a message fails to decode, no
    playback handle is created and the clock is not advanced by any
    duration: the state is the one the tool calls of the message left,
    except that the clock was raised to max(clock, device time) before the
    decoding was attempted, which does not move the start of any chunk
    handled at that device time or later.  The error ends the handling of
    this message only: the messages that follow are handled from that
    state. *)
Theorem decode_failure_drops_chunk (now : Q) (message : LiveServerMessage)
    (audio : string) (e : JsError) (w : World)
    (rest : list (Q * LiveServerMessage)) :
  ready w ->
  Forall has_args (batch message) ->
  base64Audio message = Some audio -> audio <> EmptyString ->
  decode_inline audio = Throw e ->
  let w' := set_nextStartTime (Qmax (nextStartTime w) now)
              (after_toolCall message w) in
  handleMessage now message w
    = (Throw e, w') /\
  nodes w' = nodes w /\ sources w' = sources w /\
  (forall now', now <= now' ->
     Qmax (nextStartTime w') now' == Qmax (nextStartTime w) now') /\
  handle_all ((now, message) :: rest) w =
  handle_all  rest w'.
Proof.
  intros Hr Hargs Ha Hne Hd w'.
  assert (Hrun : handleMessage now message w
                 = (Throw e, w')).
  { rewrite handleMessage_run by assumption.
    unfold mbind, M_bind, handle_audio. rewrite Ha.
    destruct (decide (audio = EmptyString)) as [?|_]; [contradiction|].
    rewrite (play_chunk_fail _ _ _ _ Hd). reflexivity. }
  split; [exact Hrun|]. split; [reflexivity|]. split; [reflexivity|]. split.
  - intros now' Hle. cbn.
    rewrite <- Q.max_assoc. rewrite (Q.max_r now now' Hle). reflexivity.
  - rewrite handle_all_cons. unfold session_onmessage, exec.
    rewrite Hrun. reflexivity.
Qed.

(** ** Content parts after the first *)

Lemma base64Audio_first_part (message : LiveServerMessage) :
  base64Audio (first_part_only message) = base64Audio message.
Proof.
  unfold base64Audio, first_part_only.
  destruct (serverContent message) as [[[[[[|p ps]|]]|] i]|]; reflexivity.
Qed.

(** The audio the handler looks for is the inline data of the first
    content part. *)
Lemma first_part_data (message : LiveServerMessage) (sc : LiveServerContent)
    (mt : Content) (p : Part) (rest : list Part) (blob : Blob) :
  serverContent message = Some sc -> modelTurn sc = Some mt ->
  parts mt = Some (p :: rest) -> inlineData p = Some blob ->
  base64Audio message = data blob.
Proof.
  intros Hsc Hmt Hps Hb. unfold base64Audio.
  rewrite Hsc. cbn. rewrite Hmt. cbn. rewrite Hps. cbn. rewrite Hb.
  reflexivity.
Qed.

Lemma first_part_without_blob (message : LiveServerMessage)
    (sc : LiveServerContent) (mt : Content) (p : Part) (rest : list Part) :
  serverContent message = Some sc -> modelTurn sc = Some mt ->
  parts mt = Some (p :: rest) -> inlineData p = None ->
  base64Audio message = None.
Proof.
  intros Hsc Hmt Hps Hb. unfold base64Audio.
  rewrite Hsc. cbn. rewrite Hmt. cbn. rewrite Hps. cbn. rewrite Hb.
  reflexivity.
Qed.

(** A message whose audio decodes adds exactly one node, with the decoded
    buffer, started at max(clock, device time), interrupted or not. *)
Lemma onmessage_audio_node (now : Q) (message : LiveServerMessage)
    (audio : string) (buf : AudioBuffer) (w : World) :
  ready w -> Forall has_args (batch message) ->
  base64Audio message = Some audio -> audio <> EmptyString ->
  decode_inline audio = Normal buf ->
  let w' := exec (handleMessage now message) w in
  length (nodes w') = S (length (nodes w)) /\
  exists new,
    nodes w' !! length (nodes w) = Some new /\
    buffer new = buf /\
    startTime new = Some (Qmax (nextStartTime w) now).
Proof.
  intros Hr Hargs Ha Hne Hd. cbv zeta. unfold exec.
  rewrite handleMessage_run by assumption.
  unfold mbind, M_bind, handle_audio. rewrite Ha.
  destruct (decide (audio = EmptyString)) as [?|_]; [contradiction|].
  rewrite (play_chunk_run _ _ _ _ Hd).
  set (new := mkSourceNode buf (Some (Qmax (nextStartTime w) now)) false).
  assert (Hnew : (nodes w ++ [new]) !! length (nodes w) = Some new).
  { rewrite lookup_app_r by reflexivity. rewrite Nat.sub_diag. reflexivity. }
  destruct (is_interrupted message).
  - rewrite stopAllAudio_run. cbn [snd].
    assert (Hlen : length (halt_all
                             (elements ({[length (nodes w)]} ∪ sources w))
                             (nodes w ++ [new])) = S (length (nodes w))).
    { rewrite halt_all_length, length_app. cbn. lia. }
    split; [exact Hlen|].
    assert (Hlt : (length (nodes w) <
                   length (halt_all
                             (elements ({[length (nodes w)]} ∪ sources w))
                             (nodes w ++ [new])))%nat) by lia.
    destruct (lookup_lt_is_Some_2 _ _ Hlt) as [n' Hn'].
    exists n'. split; [exact Hn'|].
    destruct (halt_all_lookup _ _ _ _ Hn') as (n0 & Hn0 & Hin & Hout).
    rewrite Hnew in Hn0. injection Hn0 as <-.
    destruct (decide (length (nodes w) ∈
                      elements ({[length (nodes w)]} ∪ sources w)))
      as [Hi|Hi].
    + rewrite (Hin Hi), halt_buffer, halt_startTime. split; reflexivity.
    + rewrite (Hout Hi). split; reflexivity.
  - cbn [snd]. split.
    + cbn. rewrite length_app. cbn. lia.
    + exists new. split; [exact Hnew|]. split; reflexivity.
Qed.

(** A message without audio adds no node, interrupted or not. *)
Lemma onmessage_no_audio_node (now : Q) (message : LiveServerMessage)
    (w : World) :
  ready w -> Forall has_args (batch message) ->
  base64Audio message = None \/ base64Audio message = Some EmptyString ->
  length (nodes (exec (handleMessage now message) w)) = length (nodes w).
Proof.
  intros Hr Hargs Ha. unfold exec.
  rewrite handleMessage_run by assumption.
  unfold mbind, M_bind, handle_audio.
  assert (Hskip : match base64Audio message with
                  | Some audio =>
                      if decide (audio = EmptyString) then mret tt
                      else play_chunk now audio
                  | None => mret tt
                  end (after_toolCall message w)
                  = (Normal tt, after_toolCall message w)).
  { destruct Ha as [-> | ->]; [reflexivity|].
    destruct (decide (EmptyString = EmptyString));
      [reflexivity | contradiction]. }
  rewrite Hskip.
  destruct (is_interrupted message).
  - rewrite stopAllAudio_run. cbn. apply halt_all_length.
  - reflexivity.
Qed.

(** C10. Only the first content part of a message is looked at for audio.
    Handling a message and handling it with every later part removed are
    the same computation, and a message adds at most one playback handle.
    On a client that can play, for a message whose tool calls can be read:
    when the first part carries inline audio that decodes, that audio is
    scheduled, as exactly one handle with the decoded buffer, starting at
    max(clock, device time), whatever the later parts hold; when the first
    part carries no inline audio (no inline data, no data, or the empty
    string), no handle is added, even if later parts carry audio. *)
Theorem only_first_part_is_played (now : Q) (message : LiveServerMessage)
    (w : World) :
  handleMessage now message w =
  handleMessage now (first_part_only message) w /\
  (length (nodes (exec (handleMessage now message) w))
   <= length (nodes w) + 1)%nat /\
  (forall sc mt p rest,
      serverContent message = Some sc -> modelTurn sc = Some mt ->
      parts mt = Some (p :: rest) ->
      ready w -> Forall has_args (batch message) ->
      let w' := exec (handleMessage now message) w in
      (forall blob audio buf,
          inlineData p = Some blob -> data blob = Some audio ->
          audio <> EmptyString -> decode_inline audio = Normal buf ->
          length (nodes w') = S (length (nodes w)) /\
          exists new,
            nodes w' !! length (nodes w) = Some new /\
            buffer new = buf /\
            startTime new = Some (Qmax (nextStartTime w) now)) /\
      (inlineData p = None \/
       (exists blob, inlineData p = Some blob /\
                     (data blob = None \/ data blob = Some EmptyString)) ->
       length (nodes w') = length (nodes w))).
Proof.
  split; [|split].
  - unfold handleMessage, handle_audio.
    rewrite base64Audio_first_part.
    replace (is_interrupted (first_part_only message))
      with (is_interrupted message)
      by (unfold is_interrupted, first_part_only;
          destruct (serverContent message); reflexivity).
    reflexivity.
  - unfold exec. rewrite handleMessage_steps.
    pose proof (handle_toolCall_nodes message w) as Hn.
    destruct (handle_toolCall message w) as [[[]|e] w1]; cbn in Hn.
    + destruct (bool_decide _ && bool_decide _).
      * pose proof (audio_part_frame now message w1) as (_ & _ & Hl).
        unfold exec in Hl. cbn in Hl. rewrite <- Hn. lia.
      * cbn. rewrite Hn. lia.
    + cbn. rewrite Hn. lia.
  - intros sc mt p rest Hsc Hmt Hps Hr Hargs. cbv zeta. split.
    + intros blob audio buf Hb Hdata Hne Hd.
      apply (onmessage_audio_node now message audio buf w); try assumption.
      rewrite (first_part_data _ _ _ _ _ _ Hsc Hmt Hps Hb). exact Hdata.
    + intros Hnone. apply onmessage_no_audio_node; try assumption.
      destruct Hnone as [Hb | (blob & Hb & Hdata)].
      * left. apply (first_part_without_blob _ _ _ _ _ Hsc Hmt Hps Hb).
      * rewrite (first_part_data _ _ _ _ _ _ Hsc Hmt Hps Hb).
        destruct Hdata as [-> | ->]; [left | right]; reflexivity.
Qed.

(** ** The mode protocol *)

(** C3 (amended). In a tool-call batch whose [setAssistantMode] entries
    carry their argument object, every such entry yields exactly one
    mode-change notification, with the mode it names passed on as it is,
    and exactly one acknowledgement with the id of the entry, whether or
    not the mode belongs to the enumeration; entries of any other name
    yield neither.  Notifications and acknowledgements keep the order of
    the batch, and the acknowledgements leave in one tool response. *)
Theorem mode_protocol (now : Q) (message : LiveServerMessage) (w : World) :
  Forall has_args (batch message) ->
  session w = Some Fulfilled ->
  let w' := session_onmessage
              now message w in
  let entries := filter is_setAssistantMode (batch message) in
  calls w' = calls w ++ map notification entries /\
  outbox w' = outbox w ++
    match entries with
    | [] => []
    | _ :: _ => [sendToolResponse (map acknowledgement entries)]
    end.
Proof.
  intros Hargs Hs w' entries. subst w'.
  unfold session_onmessage, exec. rewrite handleMessage_steps.
  rewrite handle_toolCall_run by (rewrite ?Hs; eauto).
  set (w1 := after_toolCall message w).
  assert (Hcalls : calls w1 = calls w ++ map notification entries)
    by reflexivity.
  assert (Hout : outbox w1 = outbox w ++
            match entries with
            | [] => []
            | _ :: _ => [sendToolResponse (map acknowledgement entries)]
            end).
  { subst w1. unfold after_toolCall, tool_response. cbn. rewrite Hs.
    fold entries. destruct entries; reflexivity. }
  destruct (bool_decide _ && bool_decide _).
  - pose proof (audio_part_frame now message w1) as (Hc & Ho & _).
    unfold exec in Hc, Ho. rewrite Hc, Ho. split; assumption.
  - split; assumption.
Qed.

End Playback.

(** ** The properties of playback on concrete sessions *)

Lemma open_session_ready : ready open_session.
Proof. unfold ready. repeat split; eexists; vm_compute; reflexivity. Qed.

Lemma silence3_carried (flag : option bool) :
  carries (utils := reference_utils) (audio_message silence3 flag)
    silence3_buffer.
Proof.
  split; [constructor|]. exists silence3.
  split; [reflexivity|]. split; [discriminate|]. vm_compute. reflexivity.
Qed.

(** C1 on two chunks, the second handled before the first has ended. *)
Lemma chunks_play_in_sequence_witness :
  exists new : list SourceNode,
    nodes (jarvis_handle_all
             [(0, audio_message silence3 None);
              (1 # 16000, audio_message silence3 None)] open_session) =
      nodes open_session ++ new /\
    map buffer new = [silence3_buffer; silence3_buffer].
Proof.
  destruct (chunks_play_in_sequence (utils := reference_utils)
              [(0, audio_message silence3 None);
               (1 # 16000, audio_message silence3 None)]
              [silence3_buffer; silence3_buffer] open_session)
    as (new & Hnodes & Hbufs & _).
  - exact open_session_ready.
  - repeat constructor; apply silence3_carried.
  - exists new. split; assumption.
Defined.

(** C1, counterexample.  Two chunks with no interruption in between, the
    second handled at device time 5 when the first ended at 1/8000: the
    second does not start where the first ends. *)
Lemma late_chunk_leaves_gap :
  let w := jarvis_handle_all
             [(0, audio_message silence3 None);
              (5, audio_message silence3 None)] open_session in
  exists a b sa sb,
    nodes w !! 0%nat = Some a /\ nodes w !! 1%nat = Some b /\
    startTime a = Some sa /\ startTime b = Some sb /\
    ~ sb == sa + duration (buffer a).
Proof.
  exists (mkSourceNode silence3_buffer (Some 0) false),
         (mkSourceNode silence3_buffer (Some 5) false), 0, 5.
  repeat split; try (vm_compute; reflexivity).
  vm_compute. discriminate.
Qed.

(** C2 on a session with one live handle: the interruption silences it, and
    a chunk handled at device time 7 starts at 7. *)
Lemma interrupt_resets_playback_witness :
  exists w' n start,
    stopAllAudio playing_session = (Normal tt, w') /\
    sources w' = ∅ /\ nextStartTime w' = 0 /\
    (forall id m, id ∈ sources playing_session ->
                  nodes w' !! id = Some m -> playing m = false) /\
    nodes (jarvis_onmessage 7 (audio_message silence3 None) w')
      !! length (nodes w') = Some n /\
    startTime n = Some start /\ start == 7.
Proof.
  destruct (interrupt_resets_playback (utils := reference_utils)
              playing_session)
    as (w' & Hrun & Hsrc & Hclock & _ & Hsilent & Hnext).
  destruct (Hnext 7 (audio_message silence3 None) silence3_buffer)
    as (n & start & Hn & _ & Hstart & Heq).
  - unfold ready. repeat split; eexists; vm_compute; reflexivity.
  - discriminate.
  - apply silence3_carried.
  - exists w', n, start. repeat split; assumption.
Defined.

(** C3 on the batch of a valid and an invalid mode. *)
Lemma mode_protocol_witness :
  calls (jarvis_onmessage 0 homework_and_bogus open_session) =
    calls open_session ++
    map notification (filter is_setAssistantMode (batch homework_and_bogus)).
Proof.
  apply (mode_protocol (utils := reference_utils) 0 homework_and_bogus
           open_session).
  - repeat constructor; intros _; eexists; reflexivity.
  - reflexivity.
Defined.

(** C3, counterexample.  The entry with id 2 names a mode outside the
    enumeration; it is notified and acknowledged like the entry with id 1. *)
Lemma unknown_mode_is_acknowledged :
  let w' := jarvis_onmessage 0 homework_and_bogus open_session in
  AssistantMode_of_string "BOGUS" = None /\
  (jarvis_handleMessage 0 homework_and_bogus open_session).1 = Normal tt /\
  calls w' =
    calls open_session ++
    [onModeChange (Some "HOMEWORK"); onModeChange (Some "BOGUS")] /\
  outbox w' =
    [sendToolResponse
       [mkFunctionResponse (Some "1") (Some setAssistantMode)
          "Mode set to HOMEWORK";
        mkFunctionResponse (Some "2") (Some setAssistantMode)
          "Mode set to BOGUS"]].
Proof. repeat split; vm_compute; reflexivity. Qed.

(** C10 on two messages of two parts: the audio of the first part is
    scheduled and that of the second is not; with no data in the first
    part nothing is scheduled although the second part carries audio. *)
Lemma only_first_part_is_played_witness :
  (exists new,
     nodes (jarvis_onmessage 0
              (two_part_message (Some one_sample) (Some silence3))
              open_session) !! 0%nat = Some new /\
     buffer new = one_sample_buffer /\ startTime new = Some (Qmax 0 0)) /\
  length (nodes (jarvis_onmessage 0
                   (two_part_message (Some one_sample) (Some silence3))
                   open_session)) = 1%nat /\
  length (nodes (jarvis_onmessage 0
                   (two_part_message None (Some silence3))
                   open_session)) = 0%nat.
Proof.
  destruct (only_first_part_is_played (utils := reference_utils) 0
              (two_part_message (Some one_sample) (Some silence3))
              open_session) as (_ & _ & Hfirst).
  destruct (Hfirst _ _ _ _ eq_refl eq_refl eq_refl open_session_ready
              (Forall_nil_2 _)) as [Hplay _].
  destruct (Hplay (mkBlob (Some one_sample) None) one_sample
              one_sample_buffer eq_refl eq_refl)
    as (Hlen & new & Hnew & Hbuf & Hstart).
  { discriminate. }
  { vm_compute. reflexivity. }
  destruct (only_first_part_is_played (utils := reference_utils) 0
              (two_part_message None (Some silence3))
              open_session) as (_ & _ & Hsecond).
  destruct (Hsecond _ _ _ _ eq_refl eq_refl eq_refl open_session_ready
              (Forall_nil_2 _)) as [_ Hnone].
  split; [|split].
  - exists new. repeat split; assumption.
  - exact Hlen.
  - apply Hnone. right. eexists. split; [reflexivity|]. left. reflexivity.
Defined.

(** C6 on a truncated chunk that reaches the open session at time 5. *)
Lemma decode_failure_drops_chunk_witness :
  jarvis_handleMessage 5 (audio_message truncated_chunk None) open_session =
  (Throw DecodeError,
   set_nextStartTime (Qmax (nextStartTime open_session) 5)
     (after_toolCall (audio_message truncated_chunk None) open_session)).
Proof.
  apply (decode_failure_drops_chunk (utils := reference_utils) 5
           (audio_message truncated_chunk None) truncated_chunk DecodeError
           open_session []).
  - exact open_session_ready.
  - constructor.
  - reflexivity.
  - discriminate.
  - vm_compute. reflexivity.
Defined.

(** C6, counterexample.  A chunk is playing and the clock is at 1/8000; a
    truncated chunk handled at device time 5 fails to decode, and the clock
    is at 5 afterwards: the state did change. *)
Lemma decode_failure_moves_clock :
  let bad := audio_message truncated_chunk None in
  (jarvis_handleMessage 5 bad playing_session).1 = Throw DecodeError /\
  nextStartTime playing_session = 3 # 24000 /\
  nextStartTime (jarvis_onmessage 5 bad playing_session) = 5 /\
  ~ nextStartTime (jarvis_onmessage 5 bad playing_session)
    == nextStartTime playing_session.
Proof.
  repeat split; try (vm_compute; reflexivity).
  vm_compute. discriminate.
Qed.

(** ** Disconnecting *)

Lemma stopped_tracks_free (ts : list TrackState) :
  existsb (fun t => if t is live then true else false)
    (map (fun _ => ended) ts) = false.
Proof. induction ts as [|t ts IH]; [reflexivity|]. cbn. exact IH. Qed.

Lemma stopped_tracks_twice (ts : list TrackState) :
  map (fun _ : TrackState => ended) (map (fun _ : TrackState => ended) ts) =
  map (fun _ => ended) ts.
Proof. induction ts as [|t ts IH]; [reflexivity|]. cbn. f_equal. exact IH. Qed.

Lemma disconnect_steps (w : World) :
  disconnect w = (stopAllAudio ;; teardown) w.
Proof. reflexivity. Qed.

Lemma teardown_run (w : World) :
  not_closed (inputAudioContext w) ->
  not_closed (outputAudioContext w) ->
  teardown w = (Normal tt, torn_down w).
Proof.
  destruct w as [ictx octx inode onode srcs clock str sess sp mss ns cs ob rq].
  unfold not_closed. cbn [inputAudioContext outputAudioContext].
  intros Hin Hout. unfold teardown, torn_down. run_M.
  unfold close_inputAudioContext, close_outputAudioContext, context_close.
  destruct ictx as [[irate iclosed]|], octx as [[orate oclosed]|];
    try (specialize (Hin _ eq_refl); cbn in Hin; subst iclosed);
    try (specialize (Hout _ eq_refl); cbn in Hout; subst oclosed);
    reflexivity.
Qed.

(** A second [teardown] changes nothing, whether or not it raises. *)
Lemma teardown_torn_down (w : World) :
  exec teardown (torn_down w) = torn_down w.
Proof.
  destruct w as [ictx octx inode onode srcs clock str sess sp mss ns cs ob rq].
  unfold teardown, torn_down, exec. run_M.
  unfold close_inputAudioContext, close_outputAudioContext, context_close.
  destruct ictx as [[irate iclosed]|], octx as [[orate oclosed]|],
    str as [[ts]|], mss as [m|], sp as [p|];
    cbn; unfold stop_tracks; cbn; rewrite ?stopped_tracks_twice; reflexivity.
Qed.

Lemma torn_down_released (w : World) :
  sources w = ∅ -> released (torn_down w) = true.
Proof.
  destruct w as [ictx octx inode onode srcs clock str sess sp mss ns cs ob rq].
  cbn [sources]. intros ->. unfold released, torn_down.
  rewrite bool_decide_eq_true_2 by reflexivity.
  unfold microphone_held, capture_connected, context_open.
  destruct ictx as [[irate iclosed]|], octx as [[orate oclosed]|],
    str as [[ts]|], mss as [m|], sp as [p|];
    cbn; rewrite ?stopped_tracks_free; reflexivity.
Qed.

Lemma interrupted_world_idle (w : World) :
  sources w = ∅ -> nextStartTime w = 0 -> interrupted_world w = w.
Proof.
  destruct w as [ictx octx inode onode srcs clock str sess sp mss ns cs ob rq].
  cbn [sources nextStartTime]. intros -> ->.
  unfold interrupted_world. cbn [sources nodes].
  rewrite elements_empty. reflexivity.
Qed.

Lemma disconnect_run (w : World) :
  not_closed (inputAudioContext w) ->
  not_closed (outputAudioContext w) ->
  disconnect w = (Normal tt, torn_down (interrupted_world w)).
Proof.
  intros Hin Hout. rewrite disconnect_steps. unfold mbind, M_bind.
  rewrite stopAllAudio_run. apply teardown_run; assumption.
Qed.

(** C5 (amended). On a client whose device contexts are not closed yet
    (never connected, connecting, open, or failed), [disconnect] returns
    without raising and leaves the end state: no live playback handle and
    the clock at 0, the capture path torn down, the microphone released,
    both device contexts closed.  Calling it a second time in a row leaves
    that end state as it is.  On a client that never connected the first
    call changes nothing. *)
Theorem disconnect_end_state (w : World) :
  not_closed (inputAudioContext w) ->
  not_closed (outputAudioContext w) ->
  exists w',
    disconnect w = (Normal tt, w') /\
    released w' = true /\
    nextStartTime w' = 0 /\
    exec disconnect w' = w' /\
    disconnect new_LiveClient = (Normal tt, new_LiveClient).
Proof.
  intros Hin Hout. exists (torn_down (interrupted_world w)).
  split; [apply disconnect_run; assumption|].
  split; [apply torn_down_released; reflexivity|].
  split; [reflexivity|]. split; [|reflexivity].
  unfold exec. rewrite disconnect_steps. unfold mbind, M_bind.
  rewrite stopAllAudio_run.
  rewrite interrupted_world_idle by reflexivity.
  pose proof (teardown_torn_down (interrupted_world w)) as Hid.
  unfold exec in Hid.
  destruct (teardown (torn_down (interrupted_world w))) as [[[]|e] w2];
    exact Hid.
Qed.

(** C5 on the open session. *)
Lemma disconnect_end_state_witness :
  exists w',
    disconnect open_session = (Normal tt, w') /\
    released w' = true /\
    nextStartTime w' = 0 /\
    exec disconnect w' = w' /\
    disconnect new_LiveClient = (Normal tt, new_LiveClient).
Proof.
  apply (disconnect_end_state open_session);
    intros ctx H; vm_compute in H; injection H as <-; reflexivity.
Defined.

(** C5, counterexample.  After a session was opened and disconnected, a
    second [disconnect] is rejected: the input context is already closed. *)
Lemma second_disconnect_raises :
  disconnect open_session = (Normal tt, exec disconnect open_session) /\
  (disconnect (exec disconnect open_session)).1 = Throw InvalidStateError.
Proof. split; vm_compute; reflexivity. Qed.

(** The application never disconnects a client twice: [handleDisconnect]
    drops its reference after the first call. *)
Lemma handleDisconnect_twice (a : App) (w : World) :
  liveClientRef a = Some w ->
  not_closed (inputAudioContext w) ->
  not_closed (outputAudioContext w) ->
  exists a',
    handleDisconnect a = (Normal tt, a') /\
    connectionState a' = IDLE /\ liveClientRef a' = None /\
    handleDisconnect a' = (Normal tt, a').
Proof.
  intros Hw Hin Hout.
  unfold handleDisconnect at 1, with_client.
  rewrite Hw, (disconnect_run w Hin Hout).
  eexists. split; [reflexivity|]. split; [reflexivity|]. split; [reflexivity|].
  unfold handleDisconnect, with_client. cbn. reflexivity.
Qed.

(** ** The capture path *)

Lemma sum_squares_from (frame : list Q) (acc : Q) :
  fold_left (fun sum x => sum + x * x) frame acc == acc + sum_of_squares frame.
Proof.
  revert acc. induction frame as [|x l IH]; intros acc; cbn.
  - Lqa.lra.
  - rewrite IH. unfold sum_of_squares. Lqa.lra.
Qed.

(** The loop of the frame handler computes the sum of the squares. *)
Lemma sum_squares_sum (frame : list Q) :
  sum_squares frame == sum_of_squares frame.
Proof. unfold sum_squares. rewrite sum_squares_from. Lqa.lra. Qed.

Lemma sum_of_squares_zero (frame : list Q) :
  Forall (fun x => x == 0) frame -> sum_of_squares frame == 0.
Proof.
  induction 1 as [|x l Hx _ IH]; cbn; [reflexivity|].
  rewrite IH, Hx. Lqa.lra.
Qed.

Lemma rms_4096 (frame : list Q) :
  Z.of_nat (length frame) = 4096%Z ->
  rms frame = sqrt (Q2R (sum_of_squares frame) / 4096)%R.
Proof.
  intros Hlen. unfold rms. rewrite Hlen. f_equal.
  change (inject_Z 4096) with (4096 # 1).
  rewrite Q2R_div by discriminate.
  rewrite (Qeq_eqR _ _ (sum_squares_sum frame)).
  f_equal. unfold Q2R. cbn. Lra.lra.
Qed.

(** C7. For a captured frame of 4096 samples, the frame handler calls the
    audio-level callback once, with 100 times the root of the mean of the
    squared samples (0 for a frame of zeros), and hands the PCM encoding of
    the frame to the session, 8192 bytes long. *)
Theorem capture_frame (inputData : list Q) (w : World) :
  Z.of_nat (length inputData) = 4096%Z ->
  session w = Some Fulfilled ->
  exists (level : R) (media : list byte),
    onaudioprocess (utils := reference_utils) inputData w =
      (Normal tt,
       set_outbox (outbox w ++ [sendRealtimeInput media])
         (set_calls (calls w ++ [onAudioData level]) w)) /\
    level = (sqrt (Q2R (sum_of_squares inputData) / 4096) * 100)%R /\
    (Forall (fun x => x == 0) inputData -> level = 0%R) /\
    media = AudioUtils.encode AudioUtils.Qtruncate inputData /\
    Z.of_nat (length media) = 8192%Z.
Proof.
  intros Hlen Hs.
  exists (rms inputData * 100)%R, (AudioUtils.createPcmBlob inputData).
  split.
  { unfold onaudioprocess, session_then. run_M. rewrite Hs. reflexivity. }
  rewrite (rms_4096 _ Hlen). split; [reflexivity|]. split; [|split].
  - intros Hz. rewrite (Qeq_eqR _ _ (sum_of_squares_zero _ Hz)).
    rewrite RMicromega.Q2R_0.
    replace (0 / 4096)%R with 0%R by Lra.lra.
    rewrite sqrt_0. Lra.lra.
  - reflexivity.
  - unfold AudioUtils.createPcmBlob. rewrite encode_length. lia.
Qed.

(** C7 on a frame of silence captured in the open session. *)
Lemma capture_frame_witness :
  exists (level : R) (media : list byte),
    onaudioprocess (utils := reference_utils) silent_frame open_session =
      (Normal tt,
       set_outbox (outbox open_session ++ [sendRealtimeInput media])
         (set_calls (calls open_session ++ [onAudioData level])
            open_session)) /\
    level = (sqrt (Q2R (sum_of_squares silent_frame) / 4096) * 100)%R /\
    (Forall (fun x => x == 0) silent_frame -> level = 0%R) /\
    media = AudioUtils.encode AudioUtils.Qtruncate silent_frame /\
    Z.of_nat (length media) = 8192%Z.
Proof.
  apply (capture_frame silent_frame open_session).
  - unfold silent_frame. rewrite repeat_length. reflexivity.
  - reflexivity.
Defined.

(** ** Failure of connect *)

(** C8. When the microphone permission or the handshake fails during
    [connect], the error reaches the caller through [onError] exactly once
    and nothing else is called back; the application is then in its error
    state with the message of that error; the microphone was requested
    once and the remote endpoint at most once: nothing is retried. *)
Theorem connect_failure_surfaces_once (API_KEY : JsString)
    (permission : Completion MediaStream) (handshake : Completion unit)
    (e : JsError) (a : App) :
  truthy API_KEY = true ->
  permission = Throw e \/
  (exists media, permission = Normal media /\ handshake = Throw e) ->
  exists a' w',
    handlePermissionGranted API_KEY permission handshake a
      = (Normal tt, a') /\
    connectionState a' = ERROR /\
    errorMsg a' = Some ("Connection Error: " +:+ error_message e) /\
    liveClientRef a' = Some w' /\
    calls w' = [onError e] /\
    (requests w' = [getUserMedia] \/
     requests w' = [getUserMedia; liveConnect]).
Proof.
  intros Hkey Hfail. unfold handlePermissionGranted. rewrite Hkey.
  destruct Hfail as [-> | (media & -> & ->)]; do 2 eexists;
    (split; [reflexivity|]); cbn; repeat split; auto.
Qed.

(** C8 on a refused microphone. *)
Lemma connect_failure_surfaces_once_witness :
  exists a' w',
    handlePermissionGranted (Some "key") (Throw PermissionDenied) (Normal tt)
      App_initial = (Normal tt, a') /\
    connectionState a' = ERROR /\
    errorMsg a' =
      Some ("Connection Error: " +:+ error_message PermissionDenied) /\
    liveClientRef a' = Some w' /\
    calls w' = [onError PermissionDenied] /\
    (requests w' = [getUserMedia] \/
     requests w' = [getUserMedia; liveConnect]).
Proof.
  apply (connect_failure_surfaces_once (Some "key") (Throw PermissionDenied)
           (Normal tt) PermissionDenied App_initial).
  - reflexivity.
  - left. reflexivity.
Defined.

(** ** Resources on the error path *)

(** C9, the failing run.  The microphone is granted and the handshake then
    fails: [connect] reports the error and returns, the application shows
    its error state, and the client still holds a live microphone track and
    two open device contexts; the only action of the error panel puts the
    application back to idle without touching the client. *)
Theorem failed_handshake_keeps_resources :
  exists a' w',
    handlePermissionGranted (Some "key") (Normal (mkMediaStream [live]))
      (Throw ConnectionError) App_initial = (Normal tt, a') /\
    connectionState a' = ERROR /\
    liveClientRef a' = Some w' /\
    microphone_held w' = true /\
    context_open (inputAudioContext w') = true /\
    context_open (outputAudioContext w') = true /\
    released w' = false /\
    connectionState (reboot_system a') = IDLE /\
    liveClientRef (reboot_system a') = Some w'.
Proof. do 2 eexists. split; [reflexivity|]. cbn. repeat split. Qed.

(** * Further properties of the client *)

(** ** Every way a message can end *)

Lemma duration_nonneg (b : AudioBuffer) : 0 <= duration b.
Proof.
  unfold duration, Qle. cbn. rewrite Z.mul_1_r.
  apply Z.div_pos; lia.
Qed.

Lemma for_functionCalls_frame (fcs : list FunctionCall) :
  forall (responses : list FunctionResponse) (w : World),
    exists cs, (for_functionCalls fcs responses w).2 =
               set_calls (calls w ++ cs) w.
Proof.
  induction fcs as [|fc fcs IH]; intros responses w.
  - exists []. cbn. rewrite app_nil_r, set_calls_same. reflexivity.
  - cbn [for_functionCalls]. unfold handle_functionCall.
    destruct (decide (fc_name fc = Some setAssistantMode)); run_M.
    + destruct (fc_args fc) as [args|].
      * destruct (IH (responses ++
                      [mkFunctionResponse (fc_id fc) (fc_name fc)
                         ("Mode set to " +:+ template (args !! "mode"))])
                    (set_calls (calls w ++ [onModeChange (args !! "mode")]) w))
          as [cs Hcs].
        exists (onModeChange (args !! "mode") :: cs).
        rewrite Hcs. cbn. rewrite <- app_assoc. reflexivity.
      * exists []. cbn. rewrite app_nil_r, set_calls_same. reflexivity.
    + apply IH.
Qed.

(** The tool-call part of a message only adds to the two traces, whatever
    the batch and however it ends. *)
Lemma handle_toolCall_frame (message : LiveServerMessage) (w : World) :
  exists cs ob, (handle_toolCall message w).2 =
                set_outbox (outbox w ++ ob) (set_calls (calls w ++ cs) w).
Proof.
  assert (Hid : exists cs ob,
             w = set_outbox (outbox w ++ ob) (set_calls (calls w ++ cs) w)).
  { exists [], []. destruct w; cbn. rewrite !app_nil_r. reflexivity. }
  unfold handle_toolCall.
  destruct (toolCall message) as [tc|]; [|exact Hid].
  destruct (functionCalls tc) as [[|fc fcs]|]; try exact Hid.
  unfold mbind, M_bind.
  destruct (for_functionCalls_frame (fc :: fcs) [] w) as [cs Hcs].
  destruct (for_functionCalls (fc :: fcs) [] w) as [[rs|e] w1]; cbn in Hcs;
    subst w1.
  - destruct rs as [|r rs].
    + exists cs, []. cbn. rewrite app_nil_r.
      destruct w; reflexivity.
    + unfold session_then. cbn.
      destruct (session w) as [[|e]|]; cbn.
      * exists cs, [sendToolResponse (r :: rs)]. reflexivity.
      * exists cs, []. rewrite app_nil_r. destruct w; reflexivity.
      * exists cs, []. rewrite app_nil_r. destruct w; reflexivity.
  - exists cs, []. cbn. rewrite app_nil_r. destruct w; reflexivity.
Qed.

Section Messages.

Context {utils : AudioUtilsModule}.

(** The five ways the handling of a message can leave the world, [w0]
    being the world after its tool-call part. *)
Lemma onmessage_shape (now : Q) (message : LiveServerMessage) (w : World) :
  let w0 := exec (handle_toolCall message) w in
  let w' := session_onmessage now message w in
  w' = w0
  \/ (is_interrupted message = false /\
      exists buf, w' = enqueued now buf w0)
  \/ w' = set_nextStartTime (Qmax (nextStartTime w0) now) w0
  \/ (is_interrupted message = true /\ w' = interrupted_world w0)
  \/ (is_interrupted message = true /\
      exists buf, w' = interrupted_world (enqueued now buf w0)).
Proof.
  cbv zeta. unfold session_onmessage, exec. rewrite handleMessage_steps.
  destruct (handle_toolCall message w) as [[[]|e] w0]; cbn [snd];
    [|left; reflexivity].
  destruct (bool_decide _ && bool_decide _); [|left; reflexivity].
  unfold audio_part, mbind, M_bind.
  destruct (handle_audio_cases now message w0)
    as [H | [(audio & buf & _ & _ & _ & H) | (audio & e & _ & _ & _ & H)]];
    rewrite H.
  - destruct (is_interrupted message) eqn:Hi.
    + rewrite stopAllAudio_run. right; right; right; left.
      split; reflexivity.
    + left. reflexivity.
  - destruct (is_interrupted message) eqn:Hi.
    + rewrite stopAllAudio_run. right; right; right; right.
      split; [reflexivity|]. exists buf. reflexivity.
    + right; left. split; [reflexivity|]. exists buf. reflexivity.
  - right; right; left. reflexivity.
Qed.

(** What the tool-call part leaves of the playback state and of the
    resources: everything. *)
Lemma toolCall_keeps (message : LiveServerMessage) (w : World) :
  let w0 := exec (handle_toolCall message) w in
  nodes w0 = nodes w /\ sources w0 = sources w /\
  nextStartTime w0 = nextStartTime w /\
  stream w0 = stream w /\ session w0 = session w /\
  inputAudioContext w0 = inputAudioContext w /\
  outputAudioContext w0 = outputAudioContext w /\
  inputNode w0 = inputNode w /\ outputNode w0 = outputNode w /\
  scriptProcessor w0 = scriptProcessor w /\
  mediaStreamSource w0 = mediaStreamSource w /\
  requests w0 = requests w.
Proof.
  cbv zeta. unfold exec.
  destruct (handle_toolCall_frame message w) as (cs & ob & ->).
  repeat split.
Qed.

(** X1. Between two interruptions the clock never goes back: handling any
    message that carries no interruption flag, at any device time, leaves
    the clock where it was or later, whether the message has audio or not
    and whether its decoding or its tool calls fail or not. *)
Theorem clock_never_goes_back (inbound : list (Q * LiveServerMessage))
    (w : World) :
  Forall (fun tm => is_interrupted tm.2 = false) inbound ->
  nextStartTime w <= nextStartTime (handle_all inbound w).
Proof.
  intros Hin. revert w.
  induction Hin as [|[now m] inbound Hi _ IH]; intros w.
  - cbn. apply Qle_refl.
  - rewrite handle_all_cons. eapply Qle_trans; [|apply IH].
    cbn in Hi.
    pose proof (toolCall_keeps m w) as (_ & _ & Hc & _).
    destruct (onmessage_shape now m w)
      as [H | [[_ [buf H]] | [H | [[Hi' _] | [Hi' _]]]]];
      try congruence; rewrite H; cbn; rewrite Hc.
    + apply Qle_refl.
    + pose proof (duration_nonneg buf).
      pose proof (Q.le_max_l (nextStartTime w) now). Lqa.lra.
    + apply Q.le_max_l.
Qed.

(** One message keeps the invariant of the scheduler. *)
Lemma onmessage_keeps_invariant (now : Q) (message : LiveServerMessage)
    (w : World) :
  scheduled_within_clock w ->
  scheduled_within_clock (session_onmessage now message w).
Proof.
  intros Hinv.
  pose proof (toolCall_keeps message w) as (Hn & Hs & Hc & _).
  set (w0 := exec (handle_toolCall message) w) in *.
  assert (Hinv0 : scheduled_within_clock w0).
  { intros id Hid. rewrite Hs in Hid.
    destruct (Hinv id Hid) as (n & s & H1 & H2 & H3).
    exists n, s. rewrite Hn, Hc. repeat split; assumption. }
  clear Hinv Hn Hs Hc.
  destruct (onmessage_shape now message w)
    as [H | [[_ [buf H]] | [H | [[_ H] | [_ [buf H]]]]]];
    fold w0 in H; rewrite H; clear H.
  - exact Hinv0.
  - intros id Hid. cbn in Hid |- *.
    pose proof (duration_nonneg buf) as Hd.
    pose proof (Q.le_max_l (nextStartTime w0) now) as Hm.
    apply elem_of_union in Hid. destruct Hid as [Hid|Hid].
    + apply elem_of_singleton in Hid. subst id.
      exists (mkSourceNode buf (Some (Qmax (nextStartTime w0) now)) false),
             (Qmax (nextStartTime w0) now).
      split; [|split; [reflexivity|]].
      * rewrite lookup_app_r by reflexivity.
        rewrite Nat.sub_diag. reflexivity.
      * cbn. apply Qle_refl.
    + destruct (Hinv0 id Hid) as (n & s & H1 & H2 & H3).
      exists n, s. split; [|split; [assumption|]].
      * rewrite lookup_app_l by (eapply lookup_lt_Some; eassumption).
        exact H1.
      * Lqa.lra.
  - intros id Hid. cbn in Hid |- *.
    destruct (Hinv0 id Hid) as (n & s & H1 & H2 & H3).
    exists n, s. repeat split; try assumption.
    pose proof (Q.le_max_l (nextStartTime w0) now). Lqa.lra.
  - intros id Hid. cbn in Hid. apply elem_of_empty in Hid. contradiction.
  - intros id Hid. cbn in Hid. apply elem_of_empty in Hid. contradiction.
Qed.

(** X2. The scheduler keeps its invariant through any sequence of
    messages, whatever they carry and at whatever device times: every live
    handle is a started node of the store that ends no later than the
    clock. *)
Theorem handles_end_within_clock (inbound : list (Q * LiveServerMessage))
    (w : World) :
  scheduled_within_clock w ->
  scheduled_within_clock (handle_all inbound w).
Proof.
  revert w. induction inbound as [|[now m] inbound IH]; intros w Hinv.
  - exact Hinv.
  - rewrite handle_all_cons. apply IH.
    apply onmessage_keeps_invariant. exact Hinv.
Qed.

(** X3. A chunk never overlaps what is still playing: when the invariant
    holds, a newly enqueued chunk starts at or after the end of every live
    handle, and at or after the device time. *)
Theorem new_chunk_after_live_handles (now : Q) (message : LiveServerMessage)
    (buf : AudioBuffer) (w : World) :
  scheduled_within_clock w ->
  ready w -> carries message buf -> is_interrupted message = false ->
  exists new start,
    nodes (session_onmessage now message w) !! length (nodes w) = Some new /\
    buffer new = buf /\ startTime new = Some start /\
    now <= start /\
    (forall id n s,
        id ∈ sources w -> nodes w !! id = Some n -> startTime n = Some s ->
        s + duration (buffer n) <= start).
Proof.
  intros Hinv Hr Hc Hi.
  rewrite (onmessage_chunk _ _ _ _ Hr Hc Hi).
  exists (mkSourceNode buf (Some (Qmax (nextStartTime w) now)) false),
         (Qmax (nextStartTime w) now).
  split.
  { cbn. rewrite lookup_app_r by reflexivity.
    rewrite Nat.sub_diag. reflexivity. }
  split; [reflexivity|]. split; [reflexivity|].
  split; [apply Q.le_max_r|].
  intros id n s Hid Hn Hs.
  destruct (Hinv id Hid) as (n' & s' & H1 & H2 & H3).
  rewrite Hn in H1. injection H1 as <-.
  rewrite Hs in H2. injection H2 as <-.
  pose proof (Q.le_max_l (nextStartTime w) now). Lqa.lra.
Qed.

(** ** The store of nodes *)

Lemma halt_all_keeps (ids : list nat) (ns : list SourceNode) (i : nat)
    (n : SourceNode) :
  ns !! i = Some n ->
  exists n', halt_all ids ns !! i = Some n' /\
    buffer n' = buffer n /\ startTime n' = startTime n /\
    (i ∉ ids -> n' = n).
Proof.
  intros Hn.
  assert (Hlt : (i < length (halt_all ids ns))%nat).
  { rewrite halt_all_length. eapply lookup_lt_Some. exact Hn. }
  destruct (lookup_lt_is_Some_2 _ _ Hlt) as [n' Hn'].
  exists n'. split; [exact Hn'|].
  destruct (halt_all_lookup _ _ _ _ Hn') as (n0 & Hn0 & Hin & Hout).
  rewrite Hn in Hn0. injection Hn0 as <-.
  destruct (decide (i ∈ ids)) as [Hi|Hi].
  - rewrite (Hin Hi), halt_buffer, halt_startTime.
    repeat split. intros Hc. contradiction.
  - rewrite (Hout Hi). repeat split.
Qed.

Lemma onmessage_keeps_nodes (now : Q) (message : LiveServerMessage)
    (w : World) (i : nat) (n : SourceNode) :
  nodes w !! i = Some n ->
  exists n', nodes (session_onmessage now message w) !! i = Some n' /\
    buffer n' = buffer n /\ startTime n' = startTime n.
Proof.
  intros Hn.
  pose proof (toolCall_keeps message w) as (Hn0 & _).
  set (w0 := exec (handle_toolCall message) w) in *.
  rewrite <- Hn0 in Hn.
  assert (Happ : forall x, (nodes w0 ++ [x]) !! i = Some n).
  { intros x. rewrite lookup_app_l by (eapply lookup_lt_Some; eassumption).
    exact Hn. }
  destruct (onmessage_shape now message w)
    as [H | [[_ [buf H]] | [H | [[_ H] | [_ [buf H]]]]]];
    fold w0 in H; rewrite H; clear H; cbn.
  - exists n. repeat split. exact Hn.
  - exists n. repeat split. apply Happ.
  - exists n. repeat split. exact Hn.
  - destruct (halt_all_keeps (elements (sources w0)) _ _ _ Hn)
      as (n' & H1 & H2 & H3 & _).
    exists n'. repeat split; assumption.
  - destruct (halt_all_keeps
                (elements ({[length (nodes w0)]} ∪ sources w0)) _ _ _
                (Happ (mkSourceNode buf
                         (Some (Qmax (nextStartTime w0) now)) false)))
      as (n' & H1 & H2 & H3 & _).
    exists n'. repeat split; assumption.
Qed.

(** X4. A chunk is never rescheduled and never leaves the store: through
    any sequence of messages, interruptions included, a node that is in the
    store stays at its place with the same buffer and the same start
    time. *)
Theorem scheduled_start_is_final (inbound : list (Q * LiveServerMessage))
    (w : World) (i : nat) (n : SourceNode) :
  nodes w !! i = Some n ->
  exists n',
    nodes (handle_all inbound w) !! i = Some n' /\
    buffer n' = buffer n /\ startTime n' = startTime n.
Proof.
  revert w n. induction inbound as [|[now m] inbound IH]; intros w n Hn.
  - exists n. repeat split. exact Hn.
  - rewrite handle_all_cons.
    destruct (onmessage_keeps_nodes now m w i n Hn) as (n1 & H1 & Hb & Hs).
    destruct (IH _ _ H1) as (n' & H' & Hb' & Hs').
    exists n'. split; [exact H'|]. split; congruence.
Qed.

(** X5. Audio that arrives in the message that also carries the
    interruption flag is never heard: the chunk is enqueued and stopped in
    the same step, the live set is empty and the clock is back at 0. *)
Theorem chunk_with_interruption_is_silenced (now : Q)
    (message : LiveServerMessage) (buf : AudioBuffer) (w : World) :
  ready w -> carries message buf -> is_interrupted message = true ->
  let w' := session_onmessage now message w in
  sources w' = ∅ /\ nextStartTime w' = 0 /\
  length (nodes w') = S (length (nodes w)) /\
  exists new,
    nodes w' !! length (nodes w) = Some new /\
    buffer new = buf /\ playing new = false.
Proof.
  intros Hr (Hargs & audio & Ha & Hne & Hd) Hi w'.
  assert (Hw' : w' = interrupted_world
                       (enqueued now buf (after_toolCall message w))).
  { subst w'. unfold session_onmessage, exec.
    rewrite handleMessage_run by assumption.
    unfold mbind, M_bind, handle_audio. rewrite Ha, Hi.
    destruct (decide (audio = EmptyString)) as [?|_]; [contradiction|].
    rewrite (play_chunk_run _ _ _ _ Hd). rewrite stopAllAudio_run.
    reflexivity. }
  rewrite Hw'. split; [reflexivity|]. split; [reflexivity|].
  split.
  { cbn. rewrite halt_all_length, length_app. cbn. lia. }
  set (new := mkSourceNode buf (Some (Qmax (nextStartTime w) now)) false).
  assert (Hnew : (nodes w ++ [new]) !! length (nodes w) = Some new).
  { rewrite lookup_app_r by reflexivity. rewrite Nat.sub_diag. reflexivity. }
  assert (Hlt : (length (nodes w) <
                 length (halt_all
                           (elements ({[length (nodes w)]} ∪ sources w))
                           (nodes w ++ [new])))%nat).
  { rewrite halt_all_length, length_app. cbn. lia. }
  destruct (lookup_lt_is_Some_2 _ _ Hlt) as [n' Hn'].
  exists n'. split; [exact Hn'|].
  destruct (halt_all_lookup _ _ _ _ Hn') as (n0 & Hn0 & Hin & _).
  rewrite Hnew in Hn0. injection Hn0 as <-.
  rewrite Hin.
  - split; [apply halt_buffer | apply halt_not_playing].
  - apply elem_of_elements, elem_of_union. left.
    apply elem_of_singleton. reflexivity.
Qed.

(** ** Tool calls that cannot be read *)

Lemma for_functionCalls_abort (pre : list FunctionCall) (fc : FunctionCall)
    (post : list FunctionCall) :
  Forall has_args pre ->
  fc_name fc = Some setAssistantMode -> fc_args fc = None ->
  forall (responses : list FunctionResponse) (w : World),
    for_functionCalls (pre ++ fc :: post) responses w =
    (Throw TypeError,
     set_calls
       (calls w ++ map notification (filter is_setAssistantMode pre)) w).
Proof.
  intros Hpre Hname Hargs.
  induction Hpre as [|fc0 pre Hfc0 _ IH]; intros responses w.
  - cbn [app for_functionCalls]. unfold handle_functionCall.
    destruct (decide (fc_name fc = Some setAssistantMode)); [|contradiction].
    rewrite Hargs. run_M. rewrite app_nil_r, set_calls_same. reflexivity.
  - cbn [app for_functionCalls]. unfold handle_functionCall.
    destruct (decide (fc_name fc0 = Some setAssistantMode)) as [Hn|Hn].
    + rewrite (filter_cons_True is_setAssistantMode _ _ Hn).
      destruct (Hfc0 Hn) as [args Ha]. cbn [map].
      unfold notification at 1, requested_mode. rewrite Ha. run_M.
      rewrite IH. cbn. rewrite <- app_assoc. reflexivity.
    + rewrite (filter_cons_False is_setAssistantMode _ _ Hn).
      run_M. rewrite IH. reflexivity.
Qed.

(** X6. A [setAssistantMode] entry without an argument object aborts the
    whole message with a [TypeError]: the entries before it have been
    notified, but no acknowledgement at all is sent, not even for them, and
    neither the audio nor the interruption flag of the message is looked
    at. *)
Theorem missing_args_abort_message (now : Q) (message : LiveServerMessage)
    (pre : list FunctionCall) (fc : FunctionCall) (post : list FunctionCall)
    (w : World) :
  batch message = pre ++ fc :: post ->
  Forall has_args pre ->
  fc_name fc = Some setAssistantMode -> fc_args fc = None ->
  handleMessage now message w =
  (Throw TypeError,
   set_calls
     (calls w ++ map notification (filter is_setAssistantMode pre)) w).
Proof.
  intros Hb Hpre Hname Hargs. rewrite handleMessage_steps.
  unfold handle_toolCall, batch in *.
  destruct (toolCall message) as [tc|];
    [|destruct pre; discriminate].
  destruct (functionCalls tc) as [fcs|]; cbn in Hb;
    [|destruct pre; discriminate].
  subst fcs.
  assert (Hrun := for_functionCalls_abort pre fc post Hpre Hname Hargs [] w).
  destruct (pre ++ fc :: post) as [|x l] eqn:Hl;
    [destruct pre; discriminate|].
  unfold mbind, M_bind. rewrite Hrun. reflexivity.
Qed.

(** X7. A message without inline audio, or whose inline audio is the empty
    string, and with no interruption flag, leaves playback alone: only its
    tool calls have an effect, and the clock is not even raised to the
    device time. *)
Theorem no_audio_leaves_playback_alone (now : Q)
    (message : LiveServerMessage) (w : World) :
  ready w -> Forall has_args (batch message) ->
  base64Audio message = None \/ base64Audio message = Some EmptyString ->
  is_interrupted message = false ->
  session_onmessage now message w = after_toolCall message w.
Proof.
  intros Hr Hargs Ha Hi. unfold session_onmessage, exec.
  rewrite handleMessage_run by assumption.
  unfold mbind, M_bind, handle_audio. rewrite Hi.
  destruct Ha as [-> | ->]; [reflexivity|].
  destruct (decide (EmptyString = EmptyString)); [reflexivity|contradiction].
Qed.

(** X8. No message touches the capture path or the connection: through any
    sequence of messages the microphone stream, both device contexts, both
    gain nodes, the capture nodes, the session and the requests made to the
    collaborators stay as they were. *)
Theorem messages_leave_resources (inbound : list (Q * LiveServerMessage))
    (w : World) :
  let w' := handle_all inbound w in
  stream w' = stream w /\ session w' = session w /\
  inputAudioContext w' = inputAudioContext w /\
  outputAudioContext w' = outputAudioContext w /\
  inputNode w' = inputNode w /\ outputNode w' = outputNode w /\
  scriptProcessor w' = scriptProcessor w /\
  mediaStreamSource w' = mediaStreamSource w /\
  requests w' = requests w.
Proof.
  revert w. induction inbound as [|[now m] inbound IH]; intros w.
  - cbn. repeat split.
  - cbv zeta. rewrite handle_all_cons.
    specialize (IH (session_onmessage now m w)). cbv zeta in IH.
    destruct IH as (I1 & I2 & I3 & I4 & I5 & I6 & I7 & I8 & I9).
    rewrite I1, I2, I3, I4, I5, I6, I7, I8, I9.
    pose proof (toolCall_keeps m w)
      as (_ & _ & _ & T1 & T2 & T3 & T4 & T5 & T6 & T7 & T8 & T9).
    rewrite <- T1, <- T2, <- T3, <- T4, <- T5, <- T6, <- T7, <- T8, <- T9.
    destruct (onmessage_shape now m w)
      as [H | [[_ [buf H]] | [H | [[_ H] | [_ [buf H]]]]]];
      rewrite H; repeat split.
Qed.

End Messages.



(** ** Handles that end, interruptions that repeat *)

(** X9. A handle that ended naturally is out of the live set, and a later
    interruption leaves its node exactly as it was while it silences every
    other handle that was live; removing it keeps the invariant of the
    scheduler. *)
Theorem ended_handle_is_left_alone (id : nat) (w : World) :
  let w' := exec stopAllAudio (on_ended id w) in
  (id ∉ sources (on_ended id w)) /\
  nodes w' !! id = nodes w !! id /\
  (forall i n, i ∈ sources w -> i <> id ->
               nodes w' !! i = Some n -> playing n = false) /\
  (scheduled_within_clock w -> scheduled_within_clock (on_ended id w)).
Proof.
  cbv zeta. unfold exec. rewrite stopAllAudio_run. cbn.
  split.
  { intros Hin. apply elem_of_difference in Hin. destruct Hin as [_ Hin].
    apply Hin. apply elem_of_singleton. reflexivity. }
  split; [|split].
  - destruct (nodes w !! id) as [n|] eqn:Hn.
    + destruct (halt_all_keeps (elements (sources w ∖ {[id]})) _ _ _ Hn)
        as (n' & Hn' & _ & _ & Hsame).
      rewrite Hn', Hsame; [reflexivity|].
      rewrite elem_of_elements. intros Hin.
      apply elem_of_difference in Hin. destruct Hin as [_ Hin].
      apply Hin. apply elem_of_singleton. reflexivity.
    + apply lookup_ge_None. rewrite halt_all_length.
      apply lookup_ge_None. exact Hn.
  - intros i n Hi Hne Hn.
    destruct (halt_all_lookup _ _ _ _ Hn) as (n0 & _ & Hin & _).
    rewrite Hin; [apply halt_not_playing|].
    rewrite elem_of_elements. apply elem_of_difference. split; [exact Hi|].
    intros Hc. apply elem_of_singleton in Hc. contradiction.
  - intros Hinv i Hi. apply (Hinv i).
    apply elem_of_difference in Hi. destruct Hi as [Hi _]. exact Hi.
Qed.

(** X10. An interruption right after an interruption changes nothing. *)
Theorem interruption_is_idempotent (w : World) :
  exec stopAllAudio (exec stopAllAudio w) = exec stopAllAudio w.
Proof.
  unfold exec. rewrite !stopAllAudio_run. cbn [snd].
  apply interrupted_world_idle; reflexivity.
Qed.

(** ** What disconnect does not do *)

Lemma teardown_frame (w : World) :
  let w' := exec teardown w in
  calls w' = calls w /\ outbox w' = outbox w /\
  requests w' = requests w /\ session w' = session w /\
  nodes w' = nodes w /\ sources w' = sources w.
Proof.
  destruct w as [ictx octx inode onode srcs clock str sess sp mss ns cs ob rq].
  unfold teardown, exec. run_M.
  unfold close_inputAudioContext, close_outputAudioContext, context_close.
  destruct ictx as [[irate [|]]|], octx as [[orate [|]]|];
    cbn; repeat split.
Qed.

(** X11. [disconnect] is silent towards the caller and the remote end: it
    invokes no callback, sends nothing, asks nothing of the collaborators
    and leaves the session promise where it is (the session itself is not
    closed), whether it returns or raises. *)
Theorem disconnect_is_silent (w : World) :
  let w' := exec disconnect w in
  calls w' = calls w /\ outbox w' = outbox w /\
  requests w' = requests w /\ session w' = session w.
Proof.
  cbv zeta. unfold exec. rewrite disconnect_steps.
  unfold mbind, M_bind. rewrite stopAllAudio_run.
  pose proof (teardown_frame (interrupted_world w)) as (H1 & H2 & H3 & H4 & _).
  unfold exec in H1, H2, H3, H4.
  destruct (teardown (interrupted_world w)) as [[[]|e] w1];
    cbn [snd] in *; rewrite H1, H2, H3, H4; repeat split.
Qed.

(** ** The capture path over many frames *)

Lemma sum_of_squares_bounds (frame : list Q) :
  Forall (fun x => -1 <= x <= 1) frame ->
  0 <= sum_of_squares frame <= inject_Z (Z.of_nat (length frame)).
Proof.
  induction 1 as [|x l [Hlo Hhi] _ [IHlo IHhi]].
  - cbn. split; apply Qle_refl.
  - cbn [sum_of_squares foldr length]. fold (sum_of_squares l).
    rewrite Nat2Z.inj_succ. unfold Z.succ. rewrite inject_Z_plus.
    change (inject_Z 1) with 1.
    set (s := sum_of_squares l) in *.
    set (k := inject_Z (Z.of_nat (length l))) in *. clearbody s k.
    assert (H0 : 0 <= x * x) by Lqa.nra.
    assert (H1 : x * x <= 1) by Lqa.nra.
    split; Lqa.lra.
Qed.

(** X12. For a frame that is not empty and whose samples are in [-1,1],
    the level handed to the audio-level callback is between 0 and 100. *)
Theorem loudness_range (frame : list Q) :
  frame <> [] ->
  Forall (fun x => -1 <= x <= 1) frame ->
  (0 <= rms frame * 100 <= 100)%R.
Proof.
  intros Hne Hin. unfold rms.
  destruct (sum_of_squares_bounds frame Hin) as [Hlo Hhi].
  set (k := inject_Z (Z.of_nat (length frame))) in *.
  assert (Hk : 0 < k).
  { subst k. change 0 with (inject_Z 0). rewrite <- Zlt_Qlt.
    destruct frame; [contradiction | cbn; lia]. }
  assert (Hmean : 0 <= sum_squares frame / k <= 1).
  { rewrite sum_squares_sum. split.
    - apply Qle_shift_div_l; [exact Hk|]. Lqa.lra.
    - apply Qle_shift_div_r; [exact Hk|]. Lqa.lra. }
  destruct Hmean as [M0 M1].
  apply Qle_Rle in M0, M1.
  rewrite RMicromega.Q2R_0 in M0. rewrite RMicromega.Q2R_1 in M1.
  pose proof (sqrt_pos (Q2R (sum_squares frame / k))) as S0.
  assert (S1 : (sqrt (Q2R (sum_squares frame / k)) <= 1)%R).
  { rewrite <- sqrt_1. apply sqrt_le_1_alt. exact M1. }
  split; Lra.lra.
Qed.

Section Frames.

Context {utils : AudioUtilsModule}.

Lemma capture_all_cons (frame : list Q) (frames : list (list Q))
    (w : World) :
  capture_all (frame :: frames) w =
  capture_all frames (exec (onaudioprocess frame) w).
Proof. reflexivity. Qed.

Lemma onaudioprocess_run (frame : list Q) (w : World) :
  session w = Some Fulfilled ->
  onaudioprocess frame w =
  (Normal tt,
   set_outbox (outbox w ++ [sendRealtimeInput (createPcmBlob frame)])
     (set_calls (calls w ++ [onAudioData (rms frame * 100)%R]) w)).
Proof.
  intros Hs. unfold onaudioprocess, session_then. run_M. rewrite Hs.
  reflexivity.
Qed.

(** X13. While the session is established, the captured frames leave in
    capture order, one send per frame, and the audio-level callback is
    invoked once per frame, in the same order. *)
Theorem frames_leave_in_capture_order (frames : list (list Q)) (w : World) :
  session w = Some Fulfilled ->
  outbox (capture_all frames w) =
    outbox w ++ map (fun f => sendRealtimeInput (createPcmBlob f)) frames /\
  calls (capture_all frames w) =
    calls w ++ map (fun f => onAudioData (rms f * 100)%R) frames.
Proof.
  revert w. induction frames as [|f frames IH]; intros w Hs.
  - cbn. rewrite !app_nil_r. split; reflexivity.
  - rewrite capture_all_cons. unfold exec.
    rewrite (onaudioprocess_run f w Hs). cbn [snd].
    destruct (IH (set_outbox
                    (outbox w ++ [sendRealtimeInput (createPcmBlob f)])
                    (set_calls (calls w ++ [onAudioData (rms f * 100)%R]) w)))
      as [Ho Hc]; [exact Hs|].
    rewrite Ho, Hc. cbn. rewrite <- !app_assoc. split; reflexivity.
Qed.



End Frames.

(** ** A successful connect *)

(** X15. After [connect] succeeded on a new client and the session opened,
    whatever stream was granted: the caller was told [onOpen] and nothing
    else, the microphone and the endpoint were each asked once, in that
    order, nothing was sent yet, the capture tap is connected, the client
    can play, no context is closed, and the scheduler is idle with its
    invariant. *)
Theorem opened_session_state (media : MediaStream) :
  let w := exec session_onopen
             (exec (connect (Normal media) (Normal tt)) new_LiveClient) in
  calls w = [onOpen] /\
  requests w = [getUserMedia; liveConnect] /\
  outbox w = [] /\
  stream w = Some media /\
  scriptProcessor w = Some (mkScriptProcessor 4096 true) /\
  capture_connected w = true /\
  ready w /\
  not_closed (inputAudioContext w) /\ not_closed (outputAudioContext w) /\
  sources w = ∅ /\ nextStartTime w = 0 /\
  scheduled_within_clock w.
Proof.
  cbv zeta.
  assert (Hw : exec session_onopen
                 (exec (connect (Normal media) (Normal tt)) new_LiveClient) =
               mkWorld (Some (mkAudioContext 16000 false))
                 (Some (mkAudioContext 24000 false))
                 (Some (mkGainNode false)) (Some (mkGainNode true))
                 ∅ 0 (Some media) (Some Fulfilled)
                 (Some (mkScriptProcessor 4096 true))
                 (Some (mkMediaStreamSource true)) [] [onOpen] []
                 [getUserMedia; liveConnect]) by reflexivity.
  rewrite Hw. clear Hw.
  do 6 (split; [reflexivity|]).
  split; [repeat split; eexists; reflexivity|].
  do 2 (split; [intros ctx [= <-]; reflexivity|]).
  do 2 (split; [reflexivity|]).
  intros id Hid. cbn in Hid. apply elem_of_empty in Hid. contradiction.
Qed.

(** ** The application *)

Lemma deliver_cons (c : Callback) (cs : list Callback) (a : App) :
  deliver (c :: cs) a = deliver cs (App_callback c a).
Proof. reflexivity. Qed.

Lemma deliver_notifications (fcs : list FunctionCall) :
  forall a : App,
    let a' := deliver (map notification fcs) a in
    assistantMode a' =
      match last fcs with
      | Some fc => requested_mode fc
      | None => assistantMode a
      end /\
    connectionState a' = connectionState a /\
    volume a' = volume a /\
    liveClientRef a' = liveClientRef a.
Proof.
  induction fcs as [|fc fcs IH]; intros a.
  - cbn. repeat split.
  - cbn [map]. rewrite deliver_cons.
    destruct (IH (App_callback (notification fc) a)) as (Hm & Hc & Hv & Hr).
    rewrite last_cons. cbv zeta. rewrite Hm, Hc, Hv, Hr.
    destruct (last fcs); repeat split.
Qed.

Section Application.

Context {utils : AudioUtilsModule}.

Lemma onmessage_calls (now : Q) (message : LiveServerMessage) (w : World) :
  Forall has_args (batch message) ->
  is_Some (session w) ->
  calls (session_onmessage now message w) =
  calls w ++ map notification (filter is_setAssistantMode (batch message)).
Proof.
  intros Hargs Hs. unfold session_onmessage, exec.
  rewrite handleMessage_steps. rewrite handle_toolCall_run by assumption.
  destruct (bool_decide _ && bool_decide _); [|reflexivity].
  pose proof (audio_part_frame now message (after_toolCall message w))
    as (Hc & _).
  unfold exec in Hc. rewrite Hc. reflexivity.
Qed.

(** X16. The mode the application shows after a message is the one named
    by the last [setAssistantMode] entry of its batch, as it was sent; with
    no such entry the mode stays.  The connection state does not change,
    and the application keeps the client as the message left it. *)
Theorem application_shows_last_mode (now : Q) (message : LiveServerMessage)
    (a : App) (w : World) :
  liveClientRef a = Some w ->
  is_Some (session w) ->
  Forall has_args (batch message) ->
  let a' := App_onmessage now message a in
  assistantMode a' =
    match last (filter is_setAssistantMode (batch message)) with
    | Some fc => requested_mode fc
    | None => assistantMode a
    end /\
  connectionState a' = connectionState a /\
  liveClientRef a' = Some (session_onmessage now message w).
Proof.
  intros Hw Hs Hargs. cbv zeta. unfold App_onmessage, with_client.
  rewrite Hw. cbn [snd].
  rewrite (onmessage_calls now message w Hargs Hs).
  rewrite drop_app_length.
  destruct (deliver_notifications
              (filter is_setAssistantMode (batch message))
              (mkApp (connectionState a) (volume a) (assistantMode a)
                 (errorMsg a) (Some (session_onmessage now message w))))
    as (Hm & Hc & _ & Hr).
  rewrite Hm, Hc, Hr. repeat split.
Qed.

End Application.

(** X17. When the remote end closes the session, the application goes back
    to idle with volume 0 and the general mode, but its client is left as
    it was: nothing is stopped, released or closed, and the client is still
    referenced. *)
Theorem remote_close_releases_nothing (a : App) (w : World) :
  liveClientRef a = Some w ->
  let a' := App_onclose a in
  connectionState a' = IDLE /\
  volume a' = 0%R /\
  assistantMode a' = Some (AssistantMode_value GENERAL) /\
  exists w',
    liveClientRef a' = Some w' /\
    calls w' = calls w ++ [onClose] /\
    sources w' = sources w /\ nodes w' = nodes w /\
    microphone_held w' = microphone_held w /\
    capture_connected w' = capture_connected w /\
    context_open (inputAudioContext w') = context_open (inputAudioContext w) /\
    context_open (outputAudioContext w') =
      context_open (outputAudioContext w).
Proof.
  intros Hw. cbv zeta. unfold App_onclose, with_client. rewrite Hw.
  unfold session_onclose, callback, modify. cbn [snd calls set_calls].
  rewrite drop_app_length. cbn.
  repeat split. eexists. repeat split.
Qed.

(** X20. [handleDisconnect] on an application whose client has no closed
    context returns without raising, leaves the client released, drops the
    reference to it and shows idle, volume 0 and the general mode; invoked
    again it changes nothing and does not raise. *)
Theorem application_disconnect (a : App) (w : World) :
  liveClientRef a = Some w ->
  not_closed (inputAudioContext w) ->
  not_closed (outputAudioContext w) ->
  exists a',
    handleDisconnect a = (Normal tt, a') /\
    released (exec disconnect w) = true /\
    connectionState a' = IDLE /\ volume a' = 0%R /\
    assistantMode a' = Some (AssistantMode_value GENERAL) /\
    liveClientRef a' = None /\
    handleDisconnect a' = (Normal tt, a').
Proof.
  intros Hw Hin Hout.
  unfold handleDisconnect at 1, with_client, exec.
  rewrite Hw, (disconnect_run w Hin Hout).
  eexists. split; [reflexivity|].
  split; [apply torn_down_released; reflexivity|].
  do 4 (split; [reflexivity|]).
  unfold handleDisconnect, with_client. cbn. reflexivity.
Qed.

(** X21. With an API key, a granted microphone and a completed handshake,
    [handlePermissionGranted] leaves the application connecting, in the
    general mode whatever mode it showed before, with a new client; it is
    the opening of the session that makes it connected, and neither step
    touches the error message left by an earlier failure. *)
Theorem application_connects (API_KEY : JsString) (media : MediaStream)
    (a : App) :
  truthy API_KEY = true ->
  exists a1,
    handlePermissionGranted API_KEY (Normal media) (Normal tt) a
      = (Normal tt, a1) /\
    connectionState a1 = CONNECTING /\
    assistantMode a1 = Some (AssistantMode_value GENERAL) /\
    errorMsg a1 = errorMsg a /\
    connectionState (App_onopen a1) = CONNECTED /\
    assistantMode (App_onopen a1) = Some (AssistantMode_value GENERAL) /\
    errorMsg (App_onopen a1) = errorMsg a /\
    liveClientRef (App_onopen a1) =
      Some (exec session_onopen
              (exec (connect (Normal media) (Normal tt)) new_LiveClient)).
Proof.
  intros Hkey. unfold handlePermissionGranted. rewrite Hkey.
  eexists. split; [reflexivity|].
  do 3 (split; [reflexivity|]).
  unfold App_onopen.
  do 3 (split; [reflexivity|]). vm_compute. reflexivity.
Qed.

(** ** The display *)

Lemma mode_is_outside (v : JsString) (m : AssistantMode) :
  (forall m', v <> Some (AssistantMode_value m')) -> mode_is v m = false.
Proof.
  intros Hv. destruct v as [s|]; [|reflexivity]. cbn.
  apply String.eqb_neq. intros ->. apply (Hv m). reflexivity.
Qed.

(** X18. The display knows three special looks.  Each member of the
    enumeration shows exactly one prompt; a mode value that is no member
    of the enumeration (an unknown name, or no value at all) gets the
    classes and the colours of the general mode and shows no prompt. *)
Theorem display_of_modes (v : JsString) :
  (forall m, v <> Some (AssistantMode_value m)) ->
  getBgClass v = getBgClass (Some (AssistantMode_value GENERAL)) /\
  getTextClass v = getTextClass (Some (AssistantMode_value GENERAL)) /\
  getIndicatorClass v =
    getIndicatorClass (Some (AssistantMode_value GENERAL)) /\
  palette v = palette (Some (AssistantMode_value GENERAL)) /\
  mode_prompts v = [] /\
  (forall m, length (mode_prompts (Some (AssistantMode_value m))) = 1%nat).
Proof.
  intros Hv.
  unfold getBgClass, getTextClass, getIndicatorClass, palette, mode_prompts.
  rewrite !(mode_is_outside v _ Hv).
  repeat split. intros []; reflexivity.
Qed.

(** X19. The visualizer.  The core never shrinks below the base radius;
    when the session is not connected the outer ring has radius 105
    whatever the volume; when it is connected the outer ring stays inside
    the canvas exactly when the volume is at most 100/3. *)
Theorem outer_ring_and_canvas (vol : R) :
  (forall isActive, baseRadius <= currentRadius isActive vol)%R /\
  outer_ring_radius false vol = 105%R /\
  (outer_ring_radius true vol <= canvas_width / 2 <-> vol <= 100 / 3)%R.
Proof.
  unfold outer_ring_radius, currentRadius, pulse, baseRadius, canvas_width.
  split; [|split].
  - intros []; [|Lra.lra].
    pose proof (Rmax_l 0 vol). Lra.lra.
  - Lra.lra.
  - unfold Rmax. destruct (Rle_dec 0 vol); split; intros; Lra.lra.
Qed.

(** ** The further properties on concrete sessions *)

Lemma open_session_invariant : scheduled_within_clock open_session.
Proof.
  intros id Hid. exfalso.
  assert (Hs : sources open_session = ∅) by reflexivity.
  rewrite Hs in Hid. apply elem_of_empty in Hid. exact Hid.
Qed.

Lemma playing_session_invariant : scheduled_within_clock playing_session.
Proof.
  apply (onmessage_keeps_invariant (utils := reference_utils)).
  exact open_session_invariant.
Qed.

Lemma playing_session_ready : ready playing_session.
Proof. unfold ready. repeat split; eexists; vm_compute; reflexivity. Qed.

(** X1 on a truncated chunk followed by a good one. *)
Lemma clock_never_goes_back_witness :
  nextStartTime playing_session <=
  nextStartTime
    (jarvis_handle_all
       [(5, audio_message truncated_chunk None);
        (6, audio_message silence3 (Some false))] playing_session).
Proof.
  apply (clock_never_goes_back (utils := reference_utils)).
  repeat constructor.
Defined.

(** X2 on a chunk, an interruption and a chunk. *)
Lemma handles_end_within_clock_witness :
  scheduled_within_clock
    (jarvis_handle_all
       [(0, audio_message silence3 None);
        (1, audio_message silence3 (Some true));
        (2, audio_message silence3 None)] open_session).
Proof.
  apply (handles_end_within_clock (utils := reference_utils)).
  exact open_session_invariant.
Defined.

(** X3 on a second chunk that arrives while the first is playing. *)
Lemma new_chunk_after_live_handles_witness :
  exists new start,
    nodes (jarvis_onmessage 0 (audio_message silence3 None) playing_session)
      !! length (nodes playing_session) = Some new /\
    buffer new = silence3_buffer /\ startTime new = Some start /\
    0 <= start /\
    (forall id n s,
        id ∈ sources playing_session ->
        nodes playing_session !! id = Some n -> startTime n = Some s ->
        s + duration (buffer n) <= start).
Proof.
  apply (new_chunk_after_live_handles (utils := reference_utils) 0
           (audio_message silence3 None) silence3_buffer playing_session).
  - exact playing_session_invariant.
  - exact playing_session_ready.
  - apply silence3_carried.
  - reflexivity.
Defined.

(** X4 on the first node of the playing session, through an
    interruption. *)
Lemma scheduled_start_is_final_witness :
  exists n',
    nodes (jarvis_handle_all
             [(1, audio_message silence3 (Some true));
              (9, audio_message silence3 None)] playing_session)
      !! 0%nat = Some n' /\
    buffer n' = silence3_buffer /\ startTime n' = Some 0.
Proof.
  apply (scheduled_start_is_final (utils := reference_utils)
           [(1, audio_message silence3 (Some true));
            (9, audio_message silence3 None)] playing_session 0
           (mkSourceNode silence3_buffer (Some 0) false)).
  vm_compute. reflexivity.
Defined.

(** X5 on a chunk that comes with the interruption flag. *)
Lemma chunk_with_interruption_is_silenced_witness :
  sources (jarvis_onmessage 3 (audio_message silence3 (Some true))
             playing_session) = ∅ /\
  nextStartTime (jarvis_onmessage 3 (audio_message silence3 (Some true))
                   playing_session) = 0.
Proof.
  destruct (chunk_with_interruption_is_silenced (utils := reference_utils) 3
              (audio_message silence3 (Some true)) silence3_buffer
              playing_session) as (Hs & Hc & _).
  - exact playing_session_ready.
  - apply silence3_carried.
  - reflexivity.
  - split; assumption.
Defined.

(** X6 on a batch whose second entry has no argument object. *)
Lemma missing_args_abort_message_witness :
  jarvis_handleMessage 0 unreadable_batch open_session =
  (Throw TypeError,
   set_calls
     (calls open_session ++
      map notification
        (filter is_setAssistantMode [mode_call "1" "HOMEWORK"]))
     open_session).
Proof.
  apply (missing_args_abort_message (utils := reference_utils) 0
           unreadable_batch [mode_call "1" "HOMEWORK"] call_without_args []
           open_session).
  - reflexivity.
  - repeat constructor. intros _. eexists. reflexivity.
  - reflexivity.
  - reflexivity.
Defined.

(** X7 on a message whose inline audio is the empty string. *)
Lemma no_audio_leaves_playback_alone_witness :
  jarvis_onmessage 4 (audio_message EmptyString None) playing_session =
  after_toolCall (audio_message EmptyString None) playing_session.
Proof.
  apply (no_audio_leaves_playback_alone (utils := reference_utils)).
  - exact playing_session_ready.
  - constructor.
  - right. reflexivity.
  - reflexivity.
Defined.

(** X12 on three samples. *)
Lemma loudness_range_witness :
  (0 <= rms three_samples * 100 <= 100)%R.
Proof.
  apply (loudness_range three_samples).
  - discriminate.
  - repeat constructor; vm_compute; congruence.
Defined.

(** X13 on two frames captured in the open session. *)
Lemma frames_leave_in_capture_order_witness :
  outbox (capture_all (utils := reference_utils) [[1]; [0; 1 # 2]]
            open_session) =
    outbox open_session ++
    map (fun f => sendRealtimeInput (AudioUtils.createPcmBlob f))
      [[1]; [0; 1 # 2]].
Proof.
  apply (frames_leave_in_capture_order (utils := reference_utils)
           [[1]; [0; 1 # 2]] open_session).
  reflexivity.
Defined.


(** X16 on the batch of two modes reaching the connected application. *)
Lemma application_shows_last_mode_witness :
  assistantMode
    (App_onmessage (utils := reference_utils) 0 homework_and_bogus
       connected_app) = Some "BOGUS".
Proof.
  apply (application_shows_last_mode (utils := reference_utils) 0
           homework_and_bogus connected_app open_session).
  - reflexivity.
  - eexists. vm_compute. reflexivity.
  - repeat constructor; intros _; eexists; reflexivity.
Defined.

(** X17 on the connected application. *)
Lemma remote_close_releases_nothing_witness :
  connectionState (App_onclose connected_app) = IDLE /\
  exists w',
    liveClientRef (App_onclose connected_app) = Some w' /\
    microphone_held w' = microphone_held open_session.
Proof.
  destruct (remote_close_releases_nothing connected_app open_session)
    as (Hc & _ & _ & w' & Hw' & _ & _ & _ & Hm & _).
  - reflexivity.
  - split; [exact Hc|]. exists w'. split; assumption.
Defined.

(** X20 on the connected application. *)
Lemma application_disconnect_witness :
  exists a',
    handleDisconnect connected_app = (Normal tt, a') /\
    released (exec disconnect open_session) = true /\
    liveClientRef a' = None /\
    handleDisconnect a' = (Normal tt, a').
Proof.
  destruct (application_disconnect connected_app open_session)
    as (a' & H1 & H2 & _ & _ & _ & H3 & H4).
  - reflexivity.
  - intros ctx H; vm_compute in H; injection H as <-; reflexivity.
  - intros ctx H; vm_compute in H; injection H as <-; reflexivity.
  - exists a'. repeat split; assumption.
Defined.

(** X21 on an application that showed an error before. *)
Lemma application_connects_witness :
  exists a1,
    handlePermissionGranted (Some "key") (Normal (mkMediaStream [live]))
      (Normal tt) App_initial = (Normal tt, a1) /\
    connectionState a1 = CONNECTING /\
    connectionState (App_onopen a1) = CONNECTED.
Proof.
  destruct (application_connects (Some "key") (mkMediaStream [live])
              App_initial) as (a1 & H1 & H2 & _ & _ & H3 & _).
  - reflexivity.
  - exists a1. repeat split; assumption.
Defined.

(** X18 on a name outside the enumeration. *)
Lemma display_of_modes_witness :
  getBgClass (Some "BOGUS") = "from-gray-900 via-black to-black" /\
  mode_prompts (Some "BOGUS") = [].
Proof.
  destruct (display_of_modes (Some "BOGUS")) as (Hb & _ & _ & _ & Hp & _).
  - intros []; discriminate.
  - split; [exact Hb | exact Hp].
Defined.
